(** * Android resource strings: [unescape] and [escape]

    A shallow embedding of [AndroidResourceUnit.unescape] and
    [AndroidResourceUnit.escape] of [translate/storage/aresource.py]
    (Python 2), with the properties of the transcoder stated and proved
    over it.

    A text is a sequence of Unicode code points: the text of an element is
    handed over as a [unicode] object, or as a [str] when it is pure ASCII,
    and the two agree on every operation used here.  The scan of [unescape]
    works on a Python list of one-character strings closed by the marker
    [EOF = None]; it is modelled as a [list (option char)] indexed by
    integers, with Python's rules for negative and out-of-range indices
    written out. *)

From Stdlib Require Import ZArith NArith List String Ascii Bool Lia.
Import ListNotations.
Open Scope Z_scope.

Set Implicit Arguments.

(** ** The Python values and operations the module uses *)

Module Py.

(** A character is its code point, a string the list of its characters. *)
Abbreviation char := N (only parsing).
Abbreviation pystr := (list N) (only parsing).

Definition chr (a : ascii) : char := N_of_ascii a.
Definition str (s : string) : pystr := map chr (list_ascii_of_string s).

(** The exceptions that can leave the two functions. *)
Inductive exn : Type :=
| ValueError (msg : string)
| NameError (name : string)
| IndexError
| TypeError.

(** The outcome of a computation: a value, an exception, or a loop that was
    cut off because its iteration budget ran out. *)
Inductive result (A : Type) : Type :=
| Return (a : A)
| Raise (e : exn)
| OutOfFuel.

Arguments Return {A} a.
Arguments Raise {A} e.
Arguments OutOfFuel {A}.

Definition bind {A B} (m : result A) (k : A -> result B) : result B :=
  match m with
  | Return a => k a
  | Raise e => Raise e
  | OutOfFuel => OutOfFuel
  end.

Definition len {A} (l : list A) : Z := Z.of_nat (List.length l).

(** A slice bound [k] of a list of length [n]: counted from the end when
    negative, then clipped to [0..n]. *)
Definition clip (n k : Z) : Z :=
  if k <? 0 then Z.max (k + n) 0 else Z.min k n.

(** [l[lo:hi]] *)
Definition getslice {A} (l : list A) (lo hi : Z) : list A :=
  let a := clip (len l) lo in
  let b := clip (len l) hi in
  firstn (Z.to_nat (b - a)) (skipn (Z.to_nat a) l).

(** [l[lo:hi] = r]; a slice whose end lies before its start is the empty
    slice at its start. *)
Definition setslice {A} (l : list A) (lo hi : Z) (r : list A) : list A :=
  let a := clip (len l) lo in
  let b := Z.max a (clip (len l) hi) in
  firstn (Z.to_nat a) l ++ r ++ skipn (Z.to_nat b) l.

(** The position an index denotes, if any. *)
Definition position {A} (l : list A) (k : Z) : option nat :=
  let j := if k <? 0 then k + len l else k in
  if (0 <=? j) && (j <? len l) then Some (Z.to_nat j) else None.

(** [l[k]] *)
Definition getitem {A} (l : list A) (k : Z) : result A :=
  match position l k with
  | Some j =>
      match nth_error l j with
      | Some x => Return x
      | None => Raise IndexError
      end
  | None => Raise IndexError
  end.

(** [l[k] = x] *)
Definition setitem {A} (l : list A) (k : Z) (x : A) : result (list A) :=
  match position l k with
  | Some j => Return (firstn j l ++ x :: skipn (S j) l)
  | None => Raise IndexError
  end.

(** [del l[k]] *)
Definition delitem {A} (l : list A) (k : Z) : result (list A) :=
  match position l k with
  | Some j => Return (firstn j l ++ skipn (S j) l)
  | None => Raise IndexError
  end.

(** ["".join(items)]: every item has to be a string; the items of the scan
    buffer are one-character strings or [None]. *)
Fixpoint join (items : list (option char)) : result pystr :=
  match items with
  | [] => Return []
  | Some c :: rest => bind (join rest) (fun s => Return (c :: s))
  | None :: _ => Raise TypeError
  end.

Fixpoint startswith (p s : pystr) : bool :=
  match p, s with
  | [], _ => true
  | _ :: _, [] => false
  | a :: p', b :: s' => N.eqb a b && startswith p' s'
  end.

(** [s.replace(old, new)] for a non-empty [old]: occurrences are found from
    the left and do not overlap; [skip] counts the characters of the
    occurrence just replaced that are still to be passed over. *)
Fixpoint replace_from (old new : pystr) (skip : nat) (s : pystr) : pystr :=
  match s with
  | [] => []
  | c :: s' =>
      match skip with
      | S k => replace_from old new k s'
      | O =>
          if startswith old s
          then new ++ replace_from old new (pred (List.length old)) s'
          else c :: replace_from old new O s'
      end
  end.

(** With an empty [old], [new] goes before every character and at the end. *)
Definition replace (old new s : pystr) : pystr :=
  match old with
  | [] => flat_map (fun c => new ++ [c]) s ++ new
  | _ :: _ => replace_from old new O s
  end.

End Py.

Import Py.

Notation "x <- m ;; k" := (bind m (fun x => k))
  (at level 61, m at next level, right associativity).

(** The characters the module names. *)
Abbreviation TAB := 9%N (only parsing).
Abbreviation NL := 10%N (only parsing).
Abbreviation SP := 32%N (only parsing).
Abbreviation DQUOTE := 34%N (only parsing).
Abbreviation PERCENT := 37%N (only parsing).
Abbreviation SQUOTE := 39%N (only parsing).
Abbreviation CH_0 := 48%N (only parsing).
Abbreviation LT := 60%N (only parsing).
Abbreviation GT := 62%N (only parsing).
Abbreviation AT := 64%N (only parsing).
Abbreviation BACKSLASH := 92%N (only parsing).
Abbreviation CH_n := 110%N (only parsing).
Abbreviation CH_t := 116%N (only parsing).
Abbreviation CH_u := 117%N (only parsing).

(** ** The encoder: [AndroidResourceUnit.escape] *)

Definition escape (text : option pystr) : result (option pystr) :=
  match text with
  | None => Return None
  | Some text =>
      let text := replace [BACKSLASH] [BACKSLASH; BACKSLASH] text in
      let text := replace [NL] [BACKSLASH; CH_n] text in
      let text := replace [TAB] [BACKSLASH; CH_t] text in
      let text := replace [SQUOTE] [BACKSLASH; SQUOTE] text in
      let text := replace [DQUOTE] [BACKSLASH; DQUOTE] text in
      let text :=
        if startswith [AT] text
        then [BACKSLASH; AT] ++ getslice text 1 (len text)
        else text in
      Return (Some text)
  end.

(** ** The decoder: [AndroidResourceUnit.unescape] *)

(** [EOF = None] closes the scan buffer; [WHITESPACE] is the whitespace
    that is collapsed. *)
Definition EOF : option char := None.
Definition WHITESPACE : pystr := [SP; NL; TAB].

(** [c in s] for a one-character string [c]. *)
Definition char_in (c : char) (s : pystr) : bool := existsb (N.eqb c) s.

(** [c == k] for an item [c] of the buffer; [None] equals no string. *)
Definition is_char (k : char) (c : option char) : bool :=
  match c with
  | Some ch => N.eqb ch k
  | None => false
  end.

(** [c is not EOF and c in WHITESPACE] *)
Definition is_whitespace (c : option char) : bool :=
  match c with
  | Some ch => char_in ch WHITESPACE
  | None => false
  end.

(** [c is EOF] *)
Definition is_EOF (c : option char) : bool :=
  match c with
  | Some _ => false
  | None => true
  end.

(** The part of the interpreter's Unicode database that [isalnum] and
    [int] consult for code points outside ASCII. *)
Record unicode_db : Type := {
  db_alnum : char -> bool;
  db_decimal : char -> option N
}.

(** A database without letters or digits outside ASCII. *)
Definition ascii_db : unicode_db :=
  {| db_alnum := fun _ => false; db_decimal := fun _ => None |}.

Definition ascii_digit (c : char) : bool := ((48 <=? c) && (c <=? 57))%N.
Definition ascii_alpha (c : char) : bool :=
  (((65 <=? c) && (c <=? 90)) || ((97 <=? c) && (c <=? 122)))%N.

(** The value of an ASCII character as a digit in base 16. *)
Definition hex_value (c : char) : option N :=
  if ascii_digit c then Some (c - 48)%N
  else if ((97 <=? c) && (c <=? 102))%N then Some (c - 87)%N
  else if ((65 <=? c) && (c <=? 70))%N then Some (c - 55)%N
  else None.

Definition is_hex (c : char) : bool :=
  match hex_value c with
  | Some _ => true
  | None => false
  end.

Fixpoint hex_number (acc : N) (s : pystr) : option N :=
  match s with
  | [] => Some acc
  | c :: s' =>
      match hex_value c with
      | Some d => hex_number (16 * acc + d)%N s'
      | None => None
      end
  end.

Section Runtime.

Variable db : unicode_db.

(** [s.isalnum()]: false on the empty string. *)
Definition char_isalnum (c : char) : bool :=
  if (c <? 128)%N then ascii_digit c || ascii_alpha c else db_alnum db c.

Definition isalnum (s : pystr) : bool :=
  match s with
  | [] => false
  | _ :: _ => forallb char_isalnum s
  end.

(** The ASCII character [int] reads for a character of its argument: a
    decimal digit of the database stands for its ASCII digit, any other
    character outside Latin-1 is an encoding error (a [ValueError]). *)
Definition to_decimal (c : char) : option char :=
  if (c <? 128)%N then Some c
  else
    match db_decimal db c with
    | Some d => if (d <? 10)%N then Some (48 + d)%N else None
    | None => if (c <? 256)%N then Some c else None
    end.

Fixpoint to_decimals (s : pystr) : option pystr :=
  match s with
  | [] => Some []
  | c :: s' =>
      match to_decimal c, to_decimals s' with
      | Some a, Some r => Some (a :: r)
      | _, _ => None
      end
  end.

(** [int(s, 16)] on an alphanumeric [s] ([None] is a [ValueError]): an
    optional [0x] or [0X] that is followed by a digit, then digits of base
    16 up to the end.  Signs and blanks, which [int] would also accept, are
    not alphanumeric and never reach it. *)
Definition int16 (s : pystr) : option N :=
  match to_decimals s with
  | None => None
  | Some a =>
      let digits :=
        match a with
        | z :: x :: d :: rest =>
            if N.eqb z CH_0 && (N.eqb x 120 || N.eqb x 88) && is_hex d
            then d :: rest
            else a
        | _ => a
        end in
      match digits with
      | [] => None
      | _ :: _ => hex_number 0 digits
      end
  end.

(** [unichr(n)] ([None] is a [ValueError]). *)
Definition unichr (n : N) : option char :=
  if (n <=? 1114111)%N then Some n else None.

(** The local variables of the scan, and what it has printed. *)
Record state : Type := mkState {
  text : list (option char);
  i : Z;
  space_count : Z;
  active_quote : bool;
  active_percent : bool;
  active_escape : bool;
  formatted : bool;
  printed : list pystr
}.

Definition set_text (t : list (option char)) (st : state) : state :=
  mkState t (i st) (space_count st) (active_quote st) (active_percent st)
    (active_escape st) (formatted st) (printed st).
Definition set_i (k : Z) (st : state) : state :=
  mkState (text st) k (space_count st) (active_quote st) (active_percent st)
    (active_escape st) (formatted st) (printed st).
Definition set_space_count (n : Z) (st : state) : state :=
  mkState (text st) (i st) n (active_quote st) (active_percent st)
    (active_escape st) (formatted st) (printed st).
Definition set_active_quote (b : bool) (st : state) : state :=
  mkState (text st) (i st) (space_count st) b (active_percent st)
    (active_escape st) (formatted st) (printed st).
Definition set_active_percent (b : bool) (st : state) : state :=
  mkState (text st) (i st) (space_count st) (active_quote st) b
    (active_escape st) (formatted st) (printed st).
Definition set_active_escape (b : bool) (st : state) : state :=
  mkState (text st) (i st) (space_count st) (active_quote st)
    (active_percent st) b (formatted st) (printed st).
Definition set_formatted (b : bool) (st : state) : state :=
  mkState (text st) (i st) (space_count st) (active_quote st)
    (active_percent st) (active_escape st) b (printed st).
Definition print (s : pystr) (st : state) : state :=
  mkState (text st) (i st) (space_count st) (active_quote st)
    (active_percent st) (active_escape st) (formatted st) (printed st ++ [s]).

(** "Handle whitespace collapsing" *)
Definition handle_whitespace (c : option char) (st : state) : result state :=
  if is_whitespace c then
    Return (set_space_count (space_count st + 1) st)
  else if 1 <? space_count st then
    let st :=
      if negb (active_quote st) || is_EOF c then
        let st :=
          set_text (setslice (text st) (i st - space_count st) (i st) [Some SP]) st in
        set_i (i st - (space_count st - 1)) st
      else st in
    Return (set_space_count 0 st)
  else if space_count st =? 1 then
    t <- setitem (text st) (i st - 1) (Some SP) ;;
    Return (set_space_count 0 (set_text t st))
  else
    Return (set_space_count 0 st).

(** "Handle quotes" *)
Definition handle_quotes (c : option char) (st : state) : result state :=
  if is_char DQUOTE c && negb (active_escape st) then
    let st := set_active_quote (negb (active_quote st)) st in
    t <- delitem (text st) (i st) ;;
    Return (set_i (i st - 1) (set_text t st))
  else Return st.

(** The percent signs of [String.format]. *)
Definition handle_percent (c : option char) (st : state) : state :=
  if is_char PERCENT c && negb (active_escape st) then
    set_active_percent (negb (active_percent st)) st
  else if negb (active_escape st) && active_percent st then
    set_active_percent false (set_formatted true st)
  else st.

Definition bad_unicode : exn := ValueError "bad unicode escape sequence".

(** The [try] block of the unicode branch: every [ValueError] inside it is
    replaced by [bad_unicode]. *)
Definition codepoint_of (codepoint_str : pystr) : result char :=
  if negb (isalnum codepoint_str) then Raise bad_unicode
  else
    match int16 codepoint_str with
    | None => Raise bad_unicode
    | Some n =>
        match unichr n with
        | Some codepoint => Return codepoint
        | None => Raise bad_unicode
        end
    end.

(** The branch for [c == 'u']. *)
Definition unicode_escape (st : state) : result state :=
  let max_slice := Z.min (i st + 5) (len (text st) - 1) in
  codepoint_str <- join (getslice (text st) (i st + 1) max_slice) ;;
  let codepoint_str :=
    if len codepoint_str <? 4
    then repeat CH_0 (Z.to_nat (4 - len codepoint_str)) ++ codepoint_str
    else codepoint_str in
  let st := print codepoint_str st in
  codepoint <- codepoint_of codepoint_str ;;
  let st := set_text (setslice (text st) (i st - 1) max_slice [Some codepoint]) st in
  Return (set_i (i st - 1) st).

(** The escape codes, for a character other than a backslash met while an
    escape is active.  The message of the last branch is built from [name],
    which is bound neither in the function nor in the module: evaluating
    it raises [NameError] before any [ValueError] exists. *)
Definition escape_code (c : option char) (st : state) : result state :=
  match c with
  | None => Return st
  | Some ch =>
      if N.eqb ch CH_n then
        let st := set_text (setslice (text st) (i st - 1) (i st + 1) [Some NL]) st in
        Return (set_i (i st - 1) st)
      else if N.eqb ch CH_t then
        let st := set_text (setslice (text st) (i st - 1) (i st + 1) [Some TAB]) st in
        Return (set_i (i st - 1) st)
      else if char_in ch [DQUOTE; SQUOTE; AT] then
        let st := set_text (setslice (text st) (i st - 1) (i st) []) st in
        Return (set_i (i st - 1) st)
      else if N.eqb ch CH_u then
        unicode_escape st
      else
        Raise (NameError "name")
  end.

(** "Handle escapes" *)
Definition handle_escapes (c : option char) (st : state) : result state :=
  if is_char BACKSLASH c then
    if negb (active_escape st) then
      Return (set_active_escape true st)
    else
      t <- delitem (text st) (i st) ;;
      Return (set_active_escape false (set_i (i st - 1) (set_text t st)))
  else if active_escape st then
    st <- escape_code c st ;;
    Return (set_active_escape false st)
  else Return st.

(** The body of the [while] loop. *)
Definition step (st : state) : result state :=
  c <- getitem (text st) (i st) ;;
  st <- handle_whitespace c st ;;
  st <- handle_quotes c st ;;
  let st := handle_percent c st in
  st <- handle_escapes c st ;;
  Return (set_i (i st + 1) st).

(** [while i < len(text)], cut off after [fuel] iterations. *)
Fixpoint scan (fuel : nat) (st : state) : result state :=
  if i st <? len (text st) then
    match fuel with
    | O => OutOfFuel
    | S fuel' =>
        match step st with
        | Return st' => scan fuel' st'
        | Raise e => Raise e
        | OutOfFuel => OutOfFuel
        end
    end
  else Return st.

(** The buffer the scan starts from, and its first state. *)
Definition buffer (text : pystr) : list (option char) :=
  let text := replace [LT] (str "&lt;") text in
  let text := replace [GT] (str "&gt;") text in
  map Some text ++ [EOF].

Definition start (text : pystr) : state :=
  mkState (buffer text) 0 0 false false false false [].

(** The scan of a text, with one iteration allowed for each item of the
    buffer it starts from. *)
Definition run (text : pystr) : result state :=
  scan (List.length (buffer text)) (start text).

(** ["".join(text[:-1])]: the buffer without its last item. *)
Definition joined (st : state) : result pystr :=
  join (getslice (text st) 0 (-1)).

Definition unescape (text : option pystr) : result (option pystr) :=
  match text with
  | None => Return None
  | Some text =>
      st <- run text ;;
      s <- joined st ;;
      Return (Some s)
  end.

End Runtime.

(** ** Descriptions and predicates the statements use *)

(** The substitution of a string for every occurrence of one character,
    character by character. *)
Definition subst (a : char) (r s : pystr) : pystr :=
  flat_map (fun c => if N.eqb c a then r else [c]) s.

(** What the two replacements before the scan make of one character. *)
Definition entity (c : char) : pystr :=
  if N.eqb c LT then str "&lt;"
  else if N.eqb c GT then str "&gt;"
  else [c].

(** The encoder as its description words it: the five substitutions of
    characters in their order, then a backslash in front of a leading
    [@].  It is compared with [escape] below. *)
Definition encode_spec (s : pystr) : pystr :=
  let s := subst BACKSLASH [BACKSLASH; BACKSLASH] s in
  let s := subst NL [BACKSLASH; CH_n] s in
  let s := subst TAB [BACKSLASH; CH_t] s in
  let s := subst SQUOTE [BACKSLASH; SQUOTE] s in
  let s := subst DQUOTE [BACKSLASH; DQUOTE] s in
  match s with
  | c :: _ => if N.eqb c AT then BACKSLASH :: s else s
  | [] => s
  end.

(** What the five substitutions do to one character of the input. *)
Definition escape_char (c : char) : pystr :=
  if N.eqb c BACKSLASH then [BACKSLASH; BACKSLASH]
  else if N.eqb c NL then [BACKSLASH; CH_n]
  else if N.eqb c TAB then [BACKSLASH; CH_t]
  else if N.eqb c SQUOTE then [BACKSLASH; SQUOTE]
  else if N.eqb c DQUOTE then [BACKSLASH; DQUOTE]
  else [c].

(** The items before the closing marker are characters. *)
Definition chars (t : list (option char)) : Prop :=
  Forall (fun x => x <> EOF) t.

(** A state the loop can be in when it tests its condition: the buffer is
    characters closed by [EOF], the whitespace counted lies before the
    index, and an active escape has its backslash before the index. *)
Record wf (st : state) (t : list (option char)) : Prop := {
  wf_text : text st = t ++ [EOF];
  wf_chars : chars t;
  wf_count : 0 <= space_count st <= i st;
  wf_index : i st <= len t + 1;
  wf_escape : active_escape st = true -> space_count st = 0 /\ 1 <= i st
}.

(** The two exceptions of the escape handling. *)
Definition expected (e : exn) : Prop :=
  e = bad_unicode \/ e = NameError "name".

(** The characters the scan passes over: no whitespace, quote or
    backslash. *)
Definition passes (c : char) : bool :=
  negb (char_in c [SP; NL; TAB; DQUOTE; BACKSLASH]).

(** A text without tab, newline, quote or backslash in which no two spaces
    are neighbours; [sp] says that a space comes just before it. *)
Fixpoint calm (sp : bool) (s : pystr) : bool :=
  match s with
  | [] => true
  | c :: s' =>
      if N.eqb c SP then negb sp && calm true s'
      else passes c && calm false s'
  end.

(** No character of [s] is one of [cs]. *)
Definition free_of (cs s : pystr) : bool :=
  forallb (fun c => negb (char_in c cs)) s.

(** No two spaces of [s] are neighbours. *)
Fixpoint single_spaced (s : pystr) : bool :=
  match s with
  | [] => true
  | a :: s' =>
      match s' with
      | [] => true
      | b :: _ => negb (N.eqb a SP && N.eqb b SP)
      end && single_spaced s'
  end.

(** A word: no whitespace, quote, backslash or angle bracket. *)
Definition word (w : pystr) : bool :=
  free_of [SP; NL; TAB; DQUOTE; BACKSLASH; LT; GT] w.

(** A blank: whitespace only. *)
Definition blank (ws : pystr) : bool :=
  forallb (fun c => char_in c WHITESPACE) ws.

(** The characters that may follow a backslash. *)
Definition supported (c : char) : bool :=
  char_in c [CH_n; CH_t; DQUOTE; SQUOTE; AT; BACKSLASH; CH_u].

(** A backslash put before a leading [@]. *)
Definition guard_at (s : pystr) : pystr :=
  match s with
  | c :: _ => if N.eqb c AT then BACKSLASH :: s else s
  | [] => s
  end.

(** The characters that form an escape code of one character with the
    backslash before them, and the character each code stands for. *)
Definition is_code (x : char) : bool :=
  char_in x [CH_n; CH_t; DQUOTE; SQUOTE; AT; BACKSLASH].

Definition decoded (x : char) : char :=
  if N.eqb x CH_n then NL else if N.eqb x CH_t then TAB else x.

(** No two spaces of [s] are neighbours, and no space begins it when [sp]
    says that a space comes just before it. *)
Fixpoint apart (sp : bool) (s : pystr) : bool :=
  match s with
  | [] => true
  | c :: s' => if N.eqb c SP then negb sp && apart true s' else apart false s'
  end.

(** The digits taken after [\u], with zeros put before them when they are
    fewer than four. *)
Definition padded (h : pystr) : pystr :=
  if len h <? 4 then repeat CH_0 (Z.to_nat (4 - len h)) ++ h else h.

(** ** Python lists: indices inside a list that is followed by more *)

Section ListFacts.

Context {A : Type}.
Implicit Types l m r : list A.

Lemma len_app l m : len (l ++ m) = len l + len m.
Proof. unfold len. rewrite length_app. lia. Qed.

Lemma len_cons x l : len (x :: l) = 1 + len l.
Proof.
  unfold len. change (List.length (x :: l)) with (S (List.length l)). lia.
Qed.

Lemma len_nonneg l : 0 <= len l.
Proof. unfold len. lia. Qed.

Lemma len_firstn l (k : nat) :
  Z.of_nat k <= len l -> len (firstn k l) = Z.of_nat k.
Proof. unfold len. intros H. rewrite length_firstn. lia. Qed.

Lemma len_skipn l (k : nat) : len (skipn k l) = Z.max 0 (len l - Z.of_nat k).
Proof. unfold len. rewrite length_skipn. lia. Qed.

Lemma firstn_app_le l m (k : nat) :
  (k <= List.length l)%nat -> firstn k (l ++ m) = firstn k l.
Proof.
  intros H. rewrite firstn_app.
  replace (k - List.length l)%nat with O by lia.
  simpl. apply app_nil_r.
Qed.

Lemma skipn_app_le l m (k : nat) :
  (k <= List.length l)%nat -> skipn k (l ++ m) = skipn k l ++ m.
Proof.
  intros H. rewrite skipn_app.
  replace (k - List.length l)%nat with O by lia.
  reflexivity.
Qed.

Lemma clip_inside n k : 0 <= k <= n -> clip n k = k.
Proof.
  intros H. unfold clip.
  destruct (Z.ltb_spec k 0); lia.
Qed.

Lemma position_inside l k :
  0 <= k < len l -> position l k = Some (Z.to_nat k).
Proof.
  intros H. unfold position.
  destruct (Z.ltb_spec k 0); [lia|].
  destruct (Z.leb_spec 0 k); [|lia].
  destruct (Z.ltb_spec k (len l)); [|lia].
  reflexivity.
Qed.

Lemma setslice_inside l m lo hi r :
  0 <= lo <= hi -> hi <= len l ->
  setslice (l ++ m) lo hi r
  = (firstn (Z.to_nat lo) l ++ r ++ skipn (Z.to_nat hi) l) ++ m.
Proof.
  intros H1 H2. unfold setslice.
  pose proof (len_nonneg m) as Hm.
  rewrite !clip_inside by (rewrite len_app; lia).
  rewrite Z.max_r by lia.
  unfold len in *.
  rewrite firstn_app_le, skipn_app_le by lia.
  rewrite <- !app_assoc. reflexivity.
Qed.

Lemma setitem_inside l m k x :
  0 <= k < len l ->
  setitem (l ++ m) k x
  = Return ((firstn (Z.to_nat k) l ++ x :: skipn (S (Z.to_nat k)) l) ++ m).
Proof.
  intros H. unfold setitem.
  pose proof (len_nonneg m) as Hm.
  rewrite position_inside by (rewrite len_app; lia).
  unfold len in *.
  rewrite firstn_app_le, skipn_app_le by lia.
  rewrite <- app_assoc. reflexivity.
Qed.

Lemma delitem_inside l m k :
  0 <= k < len l ->
  delitem (l ++ m) k
  = Return ((firstn (Z.to_nat k) l ++ skipn (S (Z.to_nat k)) l) ++ m).
Proof.
  intros H. unfold delitem.
  pose proof (len_nonneg m) as Hm.
  rewrite position_inside by (rewrite len_app; lia).
  unfold len in *.
  rewrite firstn_app_le, skipn_app_le by lia.
  rewrite <- app_assoc. reflexivity.
Qed.

Lemma getitem_inside l m k :
  0 <= k < len l ->
  exists x, getitem (l ++ m) k = Return x /\ nth_error l (Z.to_nat k) = Some x.
Proof.
  intros H. unfold getitem.
  pose proof (len_nonneg m) as Hm.
  rewrite position_inside by (rewrite len_app; lia).
  unfold len in *.
  rewrite nth_error_app1 by lia.
  destruct (nth_error l (Z.to_nat k)) as [x|] eqn:E.
  - exists x. split; reflexivity.
  - apply nth_error_None in E. lia.
Qed.

Lemma getitem_end l x : getitem (l ++ [x]) (len l) = Return x.
Proof.
  unfold getitem.
  pose proof (len_nonneg l) as Hl.
  rewrite position_inside by (unfold len; rewrite length_app; simpl; lia).
  unfold len. rewrite Nat2Z.id.
  rewrite nth_error_app2 by lia.
  rewrite Nat.sub_diag. reflexivity.
Qed.

Lemma getslice_inside l m lo hi :
  0 <= lo -> 0 <= hi <= len l ->
  getslice (l ++ m) lo hi
  = firstn (Z.to_nat (hi - lo)) (skipn (Z.to_nat lo) l).
Proof.
  intros H1 H2. unfold getslice.
  pose proof (len_nonneg m) as Hm.
  rewrite (clip_inside (k := hi)) by (rewrite len_app; lia).
  destruct (Z.le_gt_cases lo (len l)) as [Hlo|Hlo].
  - rewrite clip_inside by (rewrite len_app; lia).
    unfold len in *.
    rewrite skipn_app_le by lia.
    apply firstn_app_le.
    rewrite length_skipn. lia.
  - replace (Z.to_nat (hi - lo)) with O by lia.
    replace (Z.to_nat (hi - clip (len (l ++ m)) lo)) with O.
    + reflexivity.
    + unfold clip. destruct (Z.ltb_spec lo 0); [lia|].
      rewrite len_app. lia.
Qed.

End ListFacts.

(** ** The invariant of the scan *)

Lemma chars_app t u : chars t -> chars u -> chars (t ++ u).
Proof. intros H1 H2. apply Forall_app. split; assumption. Qed.

Lemma chars_split t k : chars t -> chars (firstn k t) /\ chars (skipn k t).
Proof.
  intros H. apply Forall_app. rewrite firstn_skipn. exact H.
Qed.

Lemma chars_firstn t k : chars t -> chars (firstn k t).
Proof. intros H. apply (chars_split k H). Qed.

Lemma chars_skipn t k : chars t -> chars (skipn k t).
Proof. intros H. apply (chars_split k H). Qed.

Lemma chars_cons c t : chars t -> chars (Some c :: t).
Proof. intros H. constructor; [discriminate | exact H]. Qed.

Lemma chars_map s : chars (map Some s).
Proof.
  induction s as [|c s IH]; constructor; [discriminate | exact IH].
Qed.

Lemma chars_nth t k x : chars t -> nth_error t k = Some x -> x <> EOF.
Proof.
  intros H E. apply nth_error_In in E.
  unfold chars in H. rewrite Forall_forall in H. apply H. exact E.
Qed.

Lemma join_chars t : chars t -> exists s, join t = Return s /\ t = map Some s.
Proof.
  induction t as [|x t IH]; intros H.
  - exists []. split; reflexivity.
  - inversion H as [|y u Hx Ht]; subst.
    destruct (IH Ht) as [s [Hj Hs]].
    destruct x as [c|]; [|exfalso; apply Hx; reflexivity].
    exists (c :: s). simpl. rewrite Hj. simpl. subst t. split; reflexivity.
Qed.

Lemma join_map s : join (map Some s) = Return s.
Proof.
  induction s as [|c s IH]; simpl; [reflexivity|].
  rewrite IH. reflexivity.
Qed.

Lemma len_join t s : join t = Return s -> len s = len t.
Proof.
  revert s. induction t as [|x t IH]; intros s H; simpl in H.
  - inversion H. reflexivity.
  - destruct x as [c|]; [|discriminate].
    destruct (join t) as [r| |]; simpl in H; try discriminate.
    inversion H; subst. unfold len in *. simpl.
    specialize (IH r eq_refl). lia.
Qed.

(** Unfolding of the state updates and of the sequencing of outcomes. *)
Ltac fields :=
  unfold set_text, set_i, set_space_count, set_active_quote,
    set_active_percent, set_active_escape, set_formatted, print in *;
  cbn [text i space_count active_quote active_percent active_escape
       formatted printed bind] in *.

Lemma whitespace_cases c :
  is_whitespace c = true -> c = Some SP \/ c = Some NL \/ c = Some TAB.
Proof.
  destruct c as [ch|]; simpl; [|discriminate].
  unfold char_in, WHITESPACE. simpl.
  destruct (N.eqb_spec ch 32); [subst; auto|].
  destruct (N.eqb_spec ch 10); [subst; auto|].
  destruct (N.eqb_spec ch 9); [subst; auto|].
  discriminate.
Qed.

(** What the whitespace handling leaves behind at a character that is not
    whitespace, or at the end. *)
Lemma handle_whitespace_other c st t :
  text st = t ++ [EOF] -> chars t ->
  0 <= space_count st <= i st -> i st <= len t ->
  is_whitespace c = false ->
  exists st1 t1,
    handle_whitespace c st = Return st1 /\
    text st1 = t1 ++ [EOF] /\ chars t1 /\
    space_count st1 = 0 /\ 0 <= i st1 /\
    len t1 - i st1 = len t - i st /\
    active_escape st1 = active_escape st /\
    (space_count st = 0 -> i st1 = i st).
Proof.
  intros Ht Hc Hs Hi Hw. unfold handle_whitespace. rewrite Hw.
  destruct (Z.ltb_spec 1 (space_count st)) as [H1|H1].
  - destruct (negb (active_quote st) || is_EOF c).
    + fields. rewrite Ht.
      rewrite setslice_inside by lia.
      eexists. eexists. split; [reflexivity|]. fields.
      split; [reflexivity|].
      split.
      { apply chars_app; [apply chars_firstn; assumption|].
        apply chars_cons, chars_skipn. assumption. }
      split; [reflexivity|]. split; [lia|].
      split; [|split; [reflexivity | lia]].
      cbn [app]. rewrite len_app, len_cons, len_firstn, len_skipn by lia. lia.
    + exists (set_space_count 0 st), t. fields.
      repeat split; try assumption; try lia.
  - destruct (Z.eqb_spec (space_count st) 1) as [H2|H2].
    + rewrite Ht. rewrite setitem_inside by lia. fields.
      eexists. eexists. split; [reflexivity|]. fields.
      split; [reflexivity|].
      split.
      { apply chars_app; [apply chars_firstn; assumption|].
        apply chars_cons, chars_skipn. assumption. }
      split; [reflexivity|]. split; [lia|].
      split; [|split; [reflexivity | lia]].
      cbn [app]. rewrite len_app, len_cons, len_firstn, len_skipn by lia. lia.
    + exists (set_space_count 0 st), t. fields.
      repeat split; try assumption; try lia.
Qed.

Lemma is_char_eq k c : is_char k c = true -> c = Some k.
Proof.
  destruct c as [ch|]; simpl; [|discriminate].
  intros H. apply N.eqb_eq in H. subst. reflexivity.
Qed.

Lemma handle_percent_same c st :
  text (handle_percent c st) = text st /\
  i (handle_percent c st) = i st /\
  space_count (handle_percent c st) = space_count st /\
  active_escape (handle_percent c st) = active_escape st /\
  active_quote (handle_percent c st) = active_quote st /\
  printed (handle_percent c st) = printed st.
Proof.
  unfold handle_percent.
  destruct (is_char PERCENT c && negb (active_escape st));
    [|destruct (negb (active_escape st) && active_percent st)];
    repeat split.
Qed.

(** The quote handling either leaves the state alone or removes the quote
    at the index and steps back. *)
Lemma handle_quotes_ok c st t :
  text st = t ++ [EOF] -> chars t -> 0 <= i st ->
  (c <> EOF -> i st < len t) ->
  (is_char DQUOTE c && negb (active_escape st) = false /\
   handle_quotes c st = Return st)
  \/
  (c = Some DQUOTE /\ active_escape st = false /\
   exists t',
     handle_quotes c st
     = Return (set_i (i st - 1)
                (set_text (t' ++ [EOF])
                   (set_active_quote (negb (active_quote st)) st))) /\
     chars t' /\ len t' = len t - 1).
Proof.
  intros Ht Hc Hi Hlt. unfold handle_quotes.
  destruct (is_char DQUOTE c && negb (active_escape st)) eqn:E.
  - right. apply andb_true_iff in E. destruct E as [E1 E2].
    apply is_char_eq in E1. apply negb_true_iff in E2.
    assert (Hin : i st < len t) by (apply Hlt; subst c; discriminate).
    split; [assumption|]. split; [assumption|].
    fields. rewrite Ht, delitem_inside by lia. fields.
    eexists. split; [reflexivity|]. split.
    + apply chars_app; [apply chars_firstn | apply chars_skipn]; assumption.
    + rewrite len_app, len_firstn, len_skipn by lia. lia.
  - left. split; reflexivity.
Qed.

Section Invariant.

Variable db : unicode_db.

Lemma codepoint_of_cases s :
  (exists cp, codepoint_of db s = Return cp) \/
  codepoint_of db s = Raise bad_unicode.
Proof.
  unfold codepoint_of.
  destruct (negb (isalnum db s)); [right; reflexivity|].
  destruct (int16 db s) as [n|]; [|right; reflexivity].
  destruct (unichr n) as [cp|]; [left; exists cp|right]; reflexivity.
Qed.

Lemma unicode_escape_ok st t :
  text st = t ++ [EOF] -> chars t -> 1 <= i st < len t ->
  match unicode_escape db st with
  | Return st' =>
      exists t', text st' = t' ++ [EOF] /\ chars t' /\
        i st' = i st - 1 /\ len t' - i st' <= len t - i st /\
        i st' < len t' /\
        space_count st' = space_count st /\
        active_escape st' = active_escape st
  | Raise e => e = bad_unicode
  | OutOfFuel => False
  end.
Proof.
  intros Ht Hc Hi. unfold unicode_escape.
  destruct st as [tx ix sc aq ap ae fm pr]. fields. subst tx.
  assert (Hlen : len (t ++ [EOF]) - 1 = len t).
  { rewrite len_app, len_cons. unfold len at 2. simpl. lia. }
  rewrite Hlen.
  set (max_slice := Z.min (ix + 5) (len t)).
  assert (Hm : ix + 1 <= max_slice <= len t) by (unfold max_slice; lia).
  rewrite getslice_inside by lia.
  destruct (join_chars (t := firstn (Z.to_nat (max_slice - (ix + 1)))
                               (skipn (Z.to_nat (ix + 1)) t)))
    as [s [Hj _]].
  { apply chars_firstn, chars_skipn. assumption. }
  rewrite Hj. fields.
  match goal with
  | |- context [codepoint_of db ?x] =>
      destruct (codepoint_of_cases x) as [[cp H]|H]; rewrite H
  end; fields; [|reflexivity].
  rewrite setslice_inside by lia.
  eexists. split; [reflexivity|]. split.
  - apply chars_app; [apply chars_firstn; assumption|].
    apply chars_cons, chars_skipn. assumption.
  - cbn [app]. rewrite len_app, len_cons, len_firstn, len_skipn by lia.
    repeat split; lia.
Qed.

Lemma escape_code_ok c st t :
  text st = t ++ [EOF] -> chars t -> 1 <= i st -> i st <= len t ->
  (c <> EOF -> i st < len t) ->
  match escape_code db c st with
  | Return st' =>
      exists t', text st' = t' ++ [EOF] /\ chars t' /\
        0 <= i st' + 1 /\ i st' <= len t' /\
        len t' - i st' <= len t - i st /\
        space_count st' = space_count st /\
        active_escape st' = active_escape st
  | Raise e => expected e
  | OutOfFuel => False
  end.
Proof.
  intros Ht Hc Hi Hle Hlt. unfold escape_code.
  destruct c as [ch|].
  2:{ exists t. repeat split; try assumption; lia. }
  assert (Hin : i st < len t) by (apply Hlt; discriminate).
  assert (Hsub : forall hi r, i st <= hi <= i st + 1 ->
            exists t', setslice (text st) (i st - 1) hi r = t' ++ [EOF] /\
              (chars r -> chars t') /\
              len t' = i st - 1 + len r + (len t - hi)).
  { intros hi r Hhi. rewrite Ht, setslice_inside by lia.
    eexists. split; [reflexivity|]. split.
    - intros Hr. apply chars_app; [apply chars_firstn; assumption|].
      apply chars_app; [assumption | apply chars_skipn; assumption].
    - rewrite !len_app, len_firstn, len_skipn by lia. lia. }
  destruct (N.eqb ch CH_n).
  { fields. destruct (Hsub (i st + 1) [Some NL]) as [t' [E [C L]]]; [lia|].
    rewrite E. exists t'. rewrite len_cons in L. unfold len in L at 2.
    simpl in L. repeat split; try lia.
    apply C, chars_cons. constructor. }
  destruct (N.eqb ch CH_t).
  { fields. destruct (Hsub (i st + 1) [Some TAB]) as [t' [E [C L]]]; [lia|].
    rewrite E. exists t'. rewrite len_cons in L. unfold len in L at 2.
    simpl in L. repeat split; try lia.
    apply C, chars_cons. constructor. }
  destruct (char_in ch [DQUOTE; SQUOTE; AT]).
  { fields. destruct (Hsub (i st) []) as [t' [E [C L]]]; [lia|].
    rewrite E. exists t'. unfold len in L at 2.
    simpl in L. repeat split; try lia.
    apply C. constructor. }
  destruct (N.eqb ch CH_u).
  { pose proof (@unicode_escape_ok st t Ht Hc) as H.
    destruct (unicode_escape db st) as [st'| |].
    - destruct H as [t' H]; [lia|]. exists t'. intuition lia.
    - left. apply H. lia.
    - apply H. lia. }
  right. reflexivity.
Qed.

Lemma handle_escapes_ok c st t :
  text st = t ++ [EOF] -> chars t -> 0 <= i st -> i st <= len t ->
  (c <> EOF -> i st < len t) ->
  (active_escape st = true -> 1 <= i st) ->
  match handle_escapes db c st with
  | Return st' =>
      exists t', text st' = t' ++ [EOF] /\ chars t' /\
        0 <= i st' + 1 /\ i st' <= len t' /\
        len t' - i st' <= len t - i st /\
        space_count st' = space_count st /\
        (active_escape st' = true -> i st' = i st)
  | Raise e => expected e
  | OutOfFuel => False
  end.
Proof.
  intros Ht Hc Hi Hle Hlt He. unfold handle_escapes.
  destruct (is_char BACKSLASH c) eqn:Eb.
  - apply is_char_eq in Eb.
    assert (Hin : i st < len t) by (apply Hlt; subst c; discriminate).
    destruct (active_escape st) eqn:Ea; cbn [negb].
    + rewrite Ht, delitem_inside by lia. fields.
      eexists. split; [reflexivity|]. split.
      { apply chars_app; [apply chars_firstn | apply chars_skipn]; assumption. }
      rewrite len_app, len_firstn, len_skipn by lia.
      specialize (He eq_refl).
      repeat split; try lia; discriminate.
    + exists t. fields. repeat split; try assumption; lia.
  - destruct (active_escape st) eqn:Ea.
    + pose proof (@escape_code_ok c st t Ht Hc (He eq_refl) Hle Hlt) as H.
      destruct (escape_code db c st) as [st'| |]; fields; try exact H.
      destruct H as [t' H]. exists t'. intuition; discriminate.
    + exists t. repeat split; try assumption; try lia.
      all: rewrite Ea; discriminate.
Qed.

End Invariant.

Section Termination.

Variable db : unicode_db.

Lemma len_closed (t : list (option char)) : len (t ++ [EOF]) = len t + 1.
Proof. rewrite len_app, len_cons. unfold len at 2. simpl. lia. Qed.

(** The item the loop reads is a character inside the buffer or [EOF] at
    its end. *)
Lemma current_item st t :
  wf st t -> i st < len (text st) ->
  exists c, getitem (text st) (i st) = Return c /\
    (c <> EOF -> i st < len t).
Proof.
  intros [Ht Hc Hs Hi He] Hlt. rewrite Ht in *. rewrite len_closed in Hlt.
  destruct (Z.eq_dec (i st) (len t)) as [E|E].
  - exists EOF. rewrite E. split; [apply getitem_end|].
    intros H. exfalso. apply H. reflexivity.
  - destruct (@getitem_inside _ t [EOF] (i st)) as [x [Hx _]]; [lia|].
    exists x. split; [exact Hx | intros _; lia].
Qed.

(** One iteration keeps the invariant and brings the index closer to the
    end of the buffer; the only exceptions it raises are the two of the
    escape handling. *)
Lemma step_wf st t :
  wf st t -> i st < len (text st) ->
  match step db st with
  | Return st' => exists t', wf st' t' /\ len t' - i st' < len t - i st
  | Raise e => expected e
  | OutOfFuel => False
  end.
Proof.
  intros Hwf Hlt.
  destruct (@current_item st t Hwf Hlt) as [c [Hg Hin]].
  destruct Hwf as [Ht Hc Hs Hi He].
  assert (Hle : i st <= len t) by (rewrite Ht, len_closed in Hlt; lia).
  unfold step. rewrite Hg. fields.
  destruct (is_whitespace c) eqn:Ew.
  - assert (Hin' : i st < len t).
    { apply Hin. intros E. rewrite E in Ew. discriminate. }
    destruct st as [tx ix sc aq ap ae fm pr]. fields.
    destruct (whitespace_cases _ Ew) as [E|[E|E]]; rewrite E;
      destruct ae, ap; cbn; try (right; reflexivity);
      (exists t; split; [constructor; fields; try assumption; try lia;
                         discriminate | fields; lia]).
  - destruct (@handle_whitespace_other c st t Ht Hc Hs Hle Ew)
      as [st1 [t1 [E1 [Ht1 [Hc1 [Hs1 [Hi1 [Hm1 [He1 Hk1]]]]]]]]].
    rewrite E1. fields.
    assert (Hin1 : c <> EOF -> i st1 < len t1) by (intros H; specialize (Hin H); lia).
    destruct (@handle_quotes_ok c st1 t1 Ht1 Hc1 Hi1 Hin1)
      as [[Eq Hq]|[Eq [Ea [t2 [Hq [Hc2 Hl2]]]]]]; rewrite Hq; fields.
    + pose proof (handle_percent_same c st1) as [P1 [P2 [P3 [P4 _]]]].
      assert (He3 : active_escape (handle_percent c st1) = true ->
                    1 <= i (handle_percent c st1)).
      { rewrite P2, P4, He1. intros H. destruct (He H) as [H0 H1].
        rewrite (Hk1 H0). exact H1. }
      pose proof (@handle_escapes_ok db c (handle_percent c st1) t1) as H.
      rewrite P1, P2 in H. specialize (H Ht1 Hc1 Hi1).
      rewrite P2 in He3.
      specialize (H ltac:(lia) Hin1 He3).
      destruct (handle_escapes db c (handle_percent c st1)) as [st4| |];
        fields; try exact H.
      destruct H as [t4 [Ht4 [Hc4 [Hi4 [Hl4 [Hm4 [Hs4 Hk4]]]]]]].
      exists t4. rewrite P3 in Hs4. split; [|fields; lia].
      constructor; fields; try assumption; try lia.
      intros H. specialize (Hk4 H). lia.
    + subst c.
      match goal with
      | |- context [handle_percent ?c ?s] =>
          pose proof (handle_percent_same c s) as [P1 [P2 [P3 [P4 _]]]]
      end.
      unfold handle_escapes. cbn [is_char N.eqb Pos.eqb].
      rewrite P4. fields. rewrite Ea in P1, P2, P3, P4 |- *. fields.
      exists t2. split; [|rewrite P2; lia].
      constructor; fields; try assumption.
      * rewrite P2, P3. lia.
      * rewrite P2. lia.
      * rewrite P4. discriminate.
Qed.

(** More fuel does not change an outcome that is not [OutOfFuel]. *)
Lemma scan_more fuel : forall st k,
  scan db fuel st <> OutOfFuel -> scan db (fuel + k) st = scan db fuel st.
Proof.
  induction fuel as [|fuel IH]; intros st k H.
  - simpl in H. destruct k; simpl;
      destruct (i st <? len (text st)); try reflexivity; contradiction.
  - simpl in *. destruct (i st <? len (text st)); [|reflexivity].
    destruct (step db st) as [st'| |]; try reflexivity.
    apply IH. exact H.
Qed.

(** With as much fuel as items left, the loop ends: in a state at the end
    of its buffer, or by one of the two exceptions. *)
Lemma scan_wf fuel : forall st t,
  wf st t -> len t + 1 - i st <= Z.of_nat fuel ->
  match scan db fuel st with
  | Return st' => exists t', wf st' t' /\ i st' = len t' + 1
  | Raise e => expected e
  | OutOfFuel => False
  end.
Proof.
  induction fuel as [|fuel IH]; intros st t Hwf Hf.
  - simpl. destruct (Z.ltb_spec (i st) (len (text st))) as [H|H].
    + rewrite (wf_text Hwf), len_closed in H. lia.
    + exists t. split; [assumption|].
      pose proof (wf_index Hwf). rewrite (wf_text Hwf), len_closed in H. lia.
  - simpl. destruct (Z.ltb_spec (i st) (len (text st))) as [H|H].
    + pose proof (@step_wf st t Hwf H) as Hs.
      destruct (step db st) as [st'| |]; try exact Hs.
      destruct Hs as [t' [Hwf' Hm]].
      apply (IH st' t' Hwf'). lia.
    + exists t. split; [assumption|].
      pose proof (wf_index Hwf). rewrite (wf_text Hwf), len_closed in H. lia.
Qed.

Lemma wf_start s : wf (start s) (removelast (buffer s)).
Proof.
  unfold start, buffer. rewrite removelast_last.
  constructor; fields; try reflexivity; try lia; try discriminate.
  all: try apply chars_map.
  all: match goal with |- context [len ?l] => pose proof (len_nonneg l) end; lia.
Qed.

End Termination.

(** ** Replacing one character *)

Lemma replace_one a r s : replace [a] r s = subst a r s.
Proof.
  unfold replace, subst.
  induction s as [|c s IH]; [reflexivity|].
  cbn [replace_from flat_map startswith List.length pred].
  rewrite andb_true_r, N.eqb_sym, IH.
  destruct (N.eqb c a); reflexivity.
Qed.

Lemma subst_absent a r s : ~ In a s -> subst a r s = s.
Proof.
  unfold subst. induction s as [|c s IH]; intros H; [reflexivity|].
  cbn [flat_map].
  destruct (N.eqb_spec c a) as [E|E].
  - exfalso. apply H. left. exact E.
  - rewrite IH; [reflexivity|]. intros Hin. apply H. right. exact Hin.
Qed.

Lemma flat_map_twice (f g : char -> pystr) s :
  flat_map g (flat_map f s) = flat_map (fun c => flat_map g (f c)) s.
Proof.
  induction s as [|c s IH]; [reflexivity|].
  cbn [flat_map]. rewrite flat_map_app, IH. reflexivity.
Qed.

Lemma flat_map_pointwise (f g : char -> pystr) s :
  (forall c, f c = g c) -> flat_map f s = flat_map g s.
Proof.
  intros H. induction s as [|c s IH]; [reflexivity|].
  cbn [flat_map]. rewrite H, IH. reflexivity.
Qed.


Lemma buffer_entities s : buffer s = map Some (flat_map entity s) ++ [EOF].
Proof.
  unfold buffer. rewrite !replace_one. unfold subst.
  rewrite flat_map_twice. do 2 f_equal.
  apply flat_map_pointwise. intros c. unfold entity.
  destruct (N.eqb c LT); [reflexivity|].
  cbn [flat_map]. apply app_nil_r.
Qed.


Lemma buffer_plain s :
  ~ In LT s -> ~ In GT s -> buffer s = map Some s ++ [EOF].
Proof.
  intros H1 H2. unfold buffer.
  rewrite !replace_one, (@subst_absent _ _ _ H1), (@subst_absent _ _ _ H2).
  reflexivity.
Qed.

(** ** The encoder, in the words of its description *)

Lemma getslice_tail (c : char) (s : pystr) :
  getslice (c :: s) 1 (len (c :: s)) = s.
Proof.
  unfold getslice.
  pose proof (len_nonneg s) as H.
  rewrite !clip_inside by (rewrite len_cons; lia).
  rewrite len_cons.
  replace (Z.to_nat 1) with 1%nat by reflexivity.
  cbn [skipn].
  replace (Z.to_nat (1 + len s - 1)) with (List.length s) by (unfold len; lia).
  apply firstn_all.
Qed.

Lemma escape_spec s : escape (Some s) = Return (Some (encode_spec s)).
Proof.
  unfold escape, encode_spec. rewrite !replace_one.
  set (r := subst DQUOTE _ _).
  destruct r as [|c r']; [reflexivity|].
  cbn [startswith]. rewrite andb_true_r, N.eqb_sym.
  destruct (N.eqb_spec c AT) as [E|E]; [|reflexivity].
  rewrite getslice_tail. subst c. reflexivity.
Qed.

(** The five substitutions never meet a character an earlier one wrote:
    together they are one pass over the input. *)
Lemma substitutions_one_pass s :
  subst DQUOTE [BACKSLASH; DQUOTE]
    (subst SQUOTE [BACKSLASH; SQUOTE]
       (subst TAB [BACKSLASH; CH_t]
          (subst NL [BACKSLASH; CH_n]
             (subst BACKSLASH [BACKSLASH; BACKSLASH] s))))
  = flat_map escape_char s.
Proof.
  unfold subst. rewrite !flat_map_twice.
  apply flat_map_pointwise. intros c. unfold escape_char.
  destruct (N.eqb_spec c BACKSLASH) as [E|E1]; [subst; reflexivity|].
  cbn [flat_map]. 
  destruct (N.eqb_spec c NL) as [E|E2]; [subst; reflexivity|].
  cbn [flat_map app].
  destruct (N.eqb_spec c TAB) as [E|E3]; [subst; reflexivity|].
  cbn [flat_map app].
  destruct (N.eqb_spec c SQUOTE) as [E|E4]; [subst; reflexivity|].
  cbn [flat_map app].
  destruct (N.eqb_spec c DQUOTE) as [E|E5]; [subst; reflexivity|].
  reflexivity.
Qed.

Lemma escape_identity s :
  ~ In BACKSLASH s -> ~ In NL s -> ~ In TAB s ->
  ~ In SQUOTE s -> ~ In DQUOTE s -> startswith [AT] s = false ->
  escape (Some s) = Return (Some s).
Proof.
  intros H1 H2 H3 H4 H5 H6.
  rewrite escape_spec. unfold encode_spec.
  rewrite (@subst_absent _ _ _ H1), (@subst_absent _ _ _ H2), (@subst_absent _ _ _ H3),
    (@subst_absent _ _ _ H4), (@subst_absent _ _ _ H5).
  destruct s as [|c s]; [reflexivity|].
  cbn [startswith] in H6. rewrite andb_true_r, N.eqb_sym in H6.
  rewrite H6. reflexivity.
Qed.

(** ** Following the scan over a text *)

Lemma getitem_mid {A} (tl : list A) (x : A) (tr : list A) :
  getitem (tl ++ x :: tr) (len tl) = Return x.
Proof.
  change (tl ++ x :: tr) with (tl ++ [x] ++ tr). rewrite app_assoc.
  destruct (@getitem_inside _ (tl ++ [x]) tr (len tl)) as [y [Hy Hn]].
  - rewrite len_app, len_cons. unfold len. simpl. lia.
  - rewrite Hy. unfold len in Hn. rewrite Nat2Z.id in Hn.
    rewrite nth_error_app2, Nat.sub_diag in Hn by lia.
    inversion Hn. reflexivity.
Qed.

Lemma setitem_prev {A} (tl : list A) (x : A) (tr : list A) :
  setitem ((tl ++ [x]) ++ tr) (len (tl ++ [x]) - 1) x
  = Return ((tl ++ [x]) ++ tr).
Proof.
  assert (H : len (tl ++ [x]) = len tl + 1).
  { rewrite len_app, len_cons. unfold len. simpl. lia. }
  pose proof (len_nonneg tl) as Hn.
  rewrite setitem_inside by lia.
  rewrite H. replace (len tl + 1 - 1) with (len tl) by lia.
  unfold len. rewrite Nat2Z.id.
  rewrite firstn_app_le, firstn_all by lia.
  rewrite skipn_all2 by (rewrite length_app; simpl; lia).
  reflexivity.
Qed.

Section Scanning.

Variable db : unicode_db.

Lemma scan_done k st : len (text st) <= i st -> scan db k st = Return st.
Proof.
  intros H. destruct k; simpl;
    destruct (Z.ltb_spec (i st) (len (text st))); try reflexivity; lia.
Qed.

Lemma scan_step k st st' :
  step db st = Return st' -> i st < len (text st) ->
  scan db (S k) st = scan db k st'.
Proof.
  intros E H. simpl.
  destruct (Z.ltb_spec (i st) (len (text st))); [|lia].
  rewrite E. reflexivity.
Qed.

(** An iteration at an item that is no quote and no backslash, outside an
    escape: only the whitespace and percent handling act. *)
Lemma step_pass c st st1 :
  getitem (text st) (i st) = Return c ->
  handle_whitespace c st = Return st1 ->
  active_escape st1 = false ->
  is_char DQUOTE c = false -> is_char BACKSLASH c = false ->
  step db st = Return (set_i (i st1 + 1) (handle_percent c st1)).
Proof.
  intros Hg Hw He Hq Hb. unfold step. rewrite Hg. fields. rewrite Hw. fields.
  unfold handle_quotes. rewrite Hq. cbn [andb]. fields.
  unfold handle_escapes. rewrite Hb.
  destruct (handle_percent_same c st1) as [_ [P2 [_ [P4 _]]]].
  do 3 (fields; rewrite ?P4, ?He, ?P2). reflexivity.
Qed.

Lemma percent_shape c tx ix sc aq ap fm pr :
  exists ap' fm',
    handle_percent c (mkState tx ix sc aq ap false fm pr)
    = mkState tx ix sc aq ap' false fm' pr.
Proof.
  unfold handle_percent. fields.
  destruct (is_char PERCENT c); cbn [negb andb].
  - eexists. eexists. reflexivity.
  - destruct ap; eexists; eexists; reflexivity.
Qed.

Lemma passes_tests c :
  passes c = true ->
  is_whitespace (Some c) = false /\
  is_char DQUOTE (Some c) = false /\
  is_char BACKSLASH (Some c) = false.
Proof.
  unfold passes, is_whitespace, is_char, char_in, WHITESPACE.
  cbn [existsb].
  destruct (N.eqb c 32), (N.eqb c 10), (N.eqb c 9), (N.eqb c 34),
    (N.eqb c 92); cbn; intros H; try discriminate; repeat split.
Qed.

Lemma inside_buffer (tl : list (option char)) x tr :
  len tl < len (tl ++ x :: tr).
Proof.
  rewrite len_app, len_cons. pose proof (len_nonneg tr). lia.
Qed.

(** The scan runs over a calm text to the end of the buffer and leaves the
    buffer as it was. *)
Lemma scan_calm : forall s (tl : list (option char)) sp aq ap fm pr k,
  calm sp s = true ->
  (sp = true -> exists tl0, tl = tl0 ++ [Some SP]) ->
  exists ap' fm',
    scan db (S (List.length s) + k)
      (mkState (tl ++ map Some s ++ [EOF]) (len tl) (if sp then 1 else 0)
         aq ap false fm pr)
    = Return (mkState (tl ++ map Some s ++ [EOF]) (len tl + len s + 1) 0
                aq ap' false fm' pr).
Proof.
  induction s as [|c s IH]; intros tl sp aq ap fm pr k Hcalm Hsp.
  - cbn [map app List.length plus].
    assert (Hw : handle_whitespace EOF
                   (mkState (tl ++ [EOF]) (len tl) (if sp then 1 else 0)
                      aq ap false fm pr)
                 = Return (mkState (tl ++ [EOF]) (len tl) 0 aq ap false fm pr)).
    { unfold handle_whitespace. cbn [is_whitespace EOF]. fields.
      destruct sp; [|reflexivity].
      cbn [Z.ltb Z.eqb Z.compare Pos.compare Pos.compare_cont Pos.eqb].
      destruct (Hsp eq_refl) as [tl0 E]. subst tl.
      rewrite setitem_prev. reflexivity. }
    destruct (percent_shape EOF (tl ++ [EOF]) (len tl) 0 aq ap fm pr)
      as [ap' [fm' Hp]].
    exists ap', fm'.
    pose proof (@step_pass EOF
                  (mkState (tl ++ [EOF]) (len tl) (if sp then 1 else 0)
                     aq ap false fm pr) _
                  (getitem_mid tl EOF []) Hw eq_refl eq_refl eq_refl) as Hs.
    rewrite (@scan_step k _ _ Hs) by (fields; apply inside_buffer).
    fields. rewrite Hp. fields.
    rewrite scan_done.
    2:{ fields. rewrite len_closed. lia. }
    do 2 f_equal. unfold len. cbn [List.length]. lia.
  - cbn [calm] in Hcalm. cbn [map app List.length plus].
    assert (Hrest : exists sp', calm sp' s = true /\
              (sp' = true -> c = SP) /\
              exists st1,
                handle_whitespace (Some c)
                  (mkState (tl ++ Some c :: map Some s ++ [EOF]) (len tl)
                     (if sp then 1 else 0) aq ap false fm pr)
                = Return st1 /\
                st1 = mkState (tl ++ Some c :: map Some s ++ [EOF]) (len tl)
                        (if sp' then 1 else 0) aq ap false fm pr /\
                is_char DQUOTE (Some c) = false /\
                is_char BACKSLASH (Some c) = false).
    { destruct (N.eqb_spec c SP) as [E|E].
      - subst c. apply andb_true_iff in Hcalm. destruct Hcalm as [H1 H2].
        destruct sp; [discriminate|].
        exists true. split; [assumption|]. split; [reflexivity|].
        eexists. split; [reflexivity|]. repeat split.
      - apply andb_true_iff in Hcalm. destruct Hcalm as [H1 H2].
        destruct (passes_tests _ H1) as [T1 [T2 T3]].
        exists false. split; [assumption|]. split; [discriminate|].
        unfold handle_whitespace. rewrite T1. fields.
        destruct sp.
        + cbn [Z.ltb Z.eqb Z.compare Pos.compare Pos.compare_cont Pos.eqb].
          destruct (Hsp eq_refl) as [tl0 E0]. subst tl.
          rewrite setitem_prev. fields.
          eexists. split; [reflexivity|]. repeat split; assumption.
        + cbn [Z.ltb Z.eqb Z.compare].
          eexists. split; [reflexivity|]. repeat split; assumption. }
    destruct Hrest as [sp' [Hc' [Hsp' [st1 [Hw [E1 [Tq Tb]]]]]]].
    destruct (percent_shape (Some c) (tl ++ Some c :: map Some s ++ [EOF])
                (len tl) (if sp' then 1 else 0) aq ap fm pr)
      as [ap1 [fm1 Hp]].
    destruct (IH (tl ++ [Some c]) sp' aq ap1 fm1 pr k Hc') as [ap' [fm' HI]].
    { intros H. exists tl. rewrite (Hsp' H). reflexivity. }
    exists ap', fm'.
    assert (He1 : active_escape st1 = false) by (subst st1; reflexivity).
    pose proof (@step_pass (Some c)
                  (mkState (tl ++ Some c :: map Some s ++ [EOF]) (len tl)
                     (if sp then 1 else 0) aq ap false fm pr) st1
                  (getitem_mid tl (Some c) (map Some s ++ [EOF]))
                  Hw He1 Tq Tb) as Hs.
    rewrite (@scan_step _ _ _ Hs) by (fields; apply inside_buffer).
    subst st1. fields. rewrite Hp. fields.
    rewrite <- app_assoc in HI. cbn [app Nat.add] in HI.
    replace (len tl + 1) with (len (tl ++ [Some c]))
      by (rewrite len_app, len_cons; unfold len; simpl; lia).
    rewrite HI. do 2 f_equal.
    rewrite len_app, !len_cons. unfold len. cbn [List.length]. lia.
Qed.

End Scanning.

(** ** The outcome of [unescape] *)

Lemma getslice_but_last {A} (t : list A) (x : A) :
  getslice (t ++ [x]) 0 (-1) = t.
Proof.
  unfold getslice.
  assert (H : len (t ++ [x]) = len t + 1).
  { rewrite len_app, len_cons. unfold len. simpl. lia. }
  pose proof (len_nonneg t) as Hn.
  rewrite H. unfold clip.
  cbn [Z.ltb Z.compare].
  rewrite Z.min_l, Z.max_l by lia.
  replace (Z.to_nat (-1 + (len t + 1) - 0)) with (List.length t)
    by (unfold len; lia).
  cbn [Z.to_nat skipn].
  rewrite firstn_app_le, firstn_all by lia. reflexivity.
Qed.

Section Outcome.

Variable db : unicode_db.

(** The scan of a text ends, in one of two ways: at the end of a buffer of
    characters closed by [EOF], and then [unescape] returns those
    characters and nothing else; or with one of the two exceptions of the
    escape handling. *)
Lemma run_outcome s :
  (exists st r,
     run db s = Return st /\ text st = map Some r ++ [EOF] /\
     i st = len (text st) /\ unescape db (Some s) = Return (Some r))
  \/
  (exists e,
     run db s = Raise e /\ unescape db (Some s) = Raise e /\ expected e).
Proof.
  pose proof (@scan_wf db (List.length (buffer s)) (start s) _ (wf_start s)) as H.
  assert (Hf : len (removelast (buffer s)) + 1 - i (start s)
               <= Z.of_nat (List.length (buffer s))).
  { unfold buffer. rewrite removelast_last.
    unfold start. fields. rewrite length_app. unfold len. simpl. lia. }
  specialize (H Hf). unfold unescape. fold (run db s) in H.
  destruct (run db s) as [st|e|]; [left|right|contradiction].
  - destruct H as [t [Hwf Hi]].
    destruct (join_chars (wf_chars Hwf)) as [r [Hj Hr]].
    exists st, r. split; [reflexivity|].
    pose proof (wf_text Hwf) as Ht.
    split; [rewrite Ht, Hr; reflexivity|].
    split; [rewrite Ht, len_closed; exact Hi|].
    fields. unfold joined. rewrite Ht, getslice_but_last, Hj. reflexivity.
  - exists e. repeat split. exact H.
Qed.

Lemma run_ends s : run db s <> OutOfFuel.
Proof.
  destruct (run_outcome s) as [[st [r [H _]]]|[e [H _]]];
    rewrite H; discriminate.
Qed.

(** The outcome does not depend on the fuel, once there is enough. *)
Lemma run_agrees s n :
  scan db n (start s) <> OutOfFuel -> run db s = scan db n (start s).
Proof.
  intros H2.
  pose proof (@scan_more db (List.length (buffer s)) (start s) n (run_ends s)) as H1.
  pose proof (@scan_more db n (start s) (List.length (buffer s)) H2) as H3.
  rewrite Nat.add_comm, H1 in H3. exact H3.
Qed.

Lemma run_unique s n st :
  scan db n (start s) = Return st -> run db s = Return st.
Proof.
  intros H. rewrite (@run_agrees s n); [exact H|].
  rewrite H. discriminate.
Qed.

End Outcome.

Section Spans.

Variable db : unicode_db.

(** The scan over characters that are no whitespace, quote or backslash:
    they stay as they are.  Whitespace counted before them stays too when
    a quote is open and more than one was counted. *)
Lemma scan_word : forall w (tl tr : list (option char)) sc aq ap fm pr k,
  forallb passes w = true ->
  sc = 0 \/ (1 < sc /\ aq = true /\ w <> []) ->
  exists ap' fm',
    scan db (List.length w + k)
      (mkState (tl ++ map Some w ++ tr) (len tl) sc aq ap false fm pr)
    = scan db k
        (mkState (tl ++ map Some w ++ tr) (len tl + len w) 0 aq ap' false
           fm' pr).
Proof.
  induction w as [|c w IH]; intros tl tr sc aq ap fm pr k Hw Hsc.
  - destruct Hsc as [E|[_ [_ E]]]; [|contradiction].
    subst sc. exists ap, fm. cbn [List.length Nat.add map app].
    do 2 f_equal. unfold len. cbn [List.length]. lia.
  - cbn [forallb] in Hw. apply andb_true_iff in Hw. destruct Hw as [Hc Hw].
    destruct (passes_tests _ Hc) as [T1 [T2 T3]].
    cbn [map app List.length Nat.add].
    assert (Hh : handle_whitespace (Some c)
                   (mkState (tl ++ Some c :: map Some w ++ tr) (len tl) sc
                      aq ap false fm pr)
                 = Return (mkState (tl ++ Some c :: map Some w ++ tr) (len tl)
                             0 aq ap false fm pr)).
    { unfold handle_whitespace. rewrite T1. fields.
      destruct Hsc as [E|[E1 [E2 _]]].
      - subst sc. reflexivity.
      - destruct (Z.ltb_spec 1 sc); [|lia]. subst aq. reflexivity. }
    destruct (percent_shape (Some c) (tl ++ Some c :: map Some w ++ tr)
                (len tl) 0 aq ap fm pr) as [ap1 [fm1 Hp]].
    destruct (IH (tl ++ [Some c]) tr 0 aq ap1 fm1 pr k Hw (or_introl eq_refl))
      as [ap' [fm' HI]].
    exists ap', fm'.
    pose proof (@step_pass db (Some c)
                  (mkState (tl ++ Some c :: map Some w ++ tr) (len tl) sc
                     aq ap false fm pr) _
                  (getitem_mid tl (Some c) (map Some w ++ tr))
                  Hh eq_refl T2 T3) as Hs.
    rewrite (@scan_step db _ _ _ Hs) by (fields; apply inside_buffer).
    fields. rewrite Hp. fields.
    rewrite <- app_assoc in HI. cbn [app] in HI.
    replace (len tl + 1) with (len (tl ++ [Some c]))
      by (rewrite len_app, len_cons; unfold len; simpl; lia).
    rewrite HI. do 2 f_equal.
    rewrite len_app, !len_cons. unfold len. cbn [List.length]. lia.
Qed.

(** The scan over whitespace: it is counted and stays as it is. *)
Lemma scan_blank : forall ws (tl tr : list (option char)) sc aq ap fm pr k,
  forallb (fun c => char_in c WHITESPACE) ws = true ->
  exists ap' fm',
    scan db (List.length ws + k)
      (mkState (tl ++ map Some ws ++ tr) (len tl) sc aq ap false fm pr)
    = scan db k
        (mkState (tl ++ map Some ws ++ tr) (len tl + len ws) (sc + len ws)
           aq ap' false fm' pr).
Proof.
  induction ws as [|c ws IH]; intros tl tr sc aq ap fm pr k Hw.
  - exists ap, fm. cbn [List.length Nat.add map app].
    do 2 f_equal; unfold len; cbn [List.length]; lia.
  - cbn [forallb] in Hw. apply andb_true_iff in Hw. destruct Hw as [Hc Hw].
    cbn [map app List.length Nat.add].
    assert (Hh : handle_whitespace (Some c)
                   (mkState (tl ++ Some c :: map Some ws ++ tr) (len tl) sc
                      aq ap false fm pr)
                 = Return (mkState (tl ++ Some c :: map Some ws ++ tr) (len tl)
                             (sc + 1) aq ap false fm pr)).
    { unfold handle_whitespace. cbn [is_whitespace]. rewrite Hc. reflexivity. }
    assert (T : is_char DQUOTE (Some c) = false /\
                is_char BACKSLASH (Some c) = false).
    { destruct (@whitespace_cases (Some c) Hc) as [E|[E|E]];
        inversion E; split; reflexivity. }
    destruct T as [T2 T3].
    destruct (percent_shape (Some c) (tl ++ Some c :: map Some ws ++ tr)
                (len tl) (sc + 1) aq ap fm pr) as [ap1 [fm1 Hp]].
    destruct (IH (tl ++ [Some c]) tr (sc + 1) aq ap1 fm1 pr k Hw)
      as [ap' [fm' HI]].
    exists ap', fm'.
    pose proof (@step_pass db (Some c)
                  (mkState (tl ++ Some c :: map Some ws ++ tr) (len tl) sc
                     aq ap false fm pr) _
                  (getitem_mid tl (Some c) (map Some ws ++ tr))
                  Hh eq_refl T2 T3) as Hs.
    rewrite (@scan_step db _ _ _ Hs) by (fields; apply inside_buffer).
    fields. rewrite Hp. fields.
    rewrite <- app_assoc in HI. cbn [app] in HI.
    replace (len tl + 1) with (len (tl ++ [Some c]))
      by (rewrite len_app, len_cons; unfold len; simpl; lia).
    rewrite HI. do 2 f_equal.
    + rewrite len_app, !len_cons. unfold len. cbn [List.length]. lia.
    + rewrite !len_cons. lia.
Qed.

End Spans.

(** ** The round trip *)

Lemma free_of_not_in cs s a : free_of cs s = true -> In a cs -> ~ In a s.
Proof.
  unfold free_of. intros H Ha Hs.
  rewrite forallb_forall in H. specialize (H a Hs).
  apply negb_true_iff in H.
  assert (E : char_in a cs = true).
  { unfold char_in. apply existsb_exists. exists a. split; [exact Ha|].
    apply N.eqb_refl. }
  rewrite E in H. discriminate.
Qed.

Lemma calm_of_single_spaced : forall s sp,
  free_of [BACKSLASH; DQUOTE; SQUOTE; NL; TAB] s = true ->
  single_spaced s = true ->
  (sp = true -> startswith [SP] s = false) ->
  calm sp s = true.
Proof.
  induction s as [|c s IH]; intros sp Hf Hs Hsp; [reflexivity|].
  cbn [free_of forallb] in Hf. fold (free_of [BACKSLASH; DQUOTE; SQUOTE; NL; TAB] s) in Hf.
  apply andb_true_iff in Hf. destruct Hf as [Hc Hf].
  cbn [single_spaced] in Hs. apply andb_true_iff in Hs. destruct Hs as [Hn Hs].
  cbn [calm].
  destruct (N.eqb_spec c SP) as [E|E].
  - subst c. apply andb_true_iff. split.
    + destruct sp; [|reflexivity]. specialize (Hsp eq_refl). discriminate.
    + apply IH; try assumption. intros _.
      destruct s as [|b s']; [reflexivity|].
      cbn [startswith]. rewrite andb_true_r.
      cbn [N.eqb Pos.eqb andb] in Hn. apply negb_true_iff in Hn.
      rewrite N.eqb_sym. exact Hn.
  - apply andb_true_iff. split.
    + unfold passes, char_in in *. cbn [existsb] in *.
      apply N.eqb_neq in E. rewrite E.
      destruct (N.eqb c 92), (N.eqb c 34), (N.eqb c 39), (N.eqb c 10),
        (N.eqb c 9); try discriminate; reflexivity.
    + apply IH; try assumption. discriminate.
Qed.

(** ** An unterminated quote *)

Lemma len_map {A B} (f : A -> B) (l : list A) : len (map f l) = len l.
Proof. unfold len. rewrite length_map. reflexivity. Qed.

Lemma skipn_len {A} (l : list A) : skipn (Z.to_nat (len l)) l = [].
Proof. unfold len. rewrite Nat2Z.id. apply skipn_all. Qed.

Lemma firstn_len {A} (l m : list A) : firstn (Z.to_nat (len l)) (l ++ m) = l.
Proof.
  unfold len. rewrite Nat2Z.id, firstn_app_le, firstn_all by lia.
  reflexivity.
Qed.

Section Unterminated.

Variable db : unicode_db.


(** The iteration at [EOF] when no whitespace is counted. *)
Lemma scan_eof_plain (t : list (option char)) aq ap fm pr k :
  exists ap' fm',
    scan db (S k) (mkState (t ++ [EOF]) (len t) 0 aq ap false fm pr)
    = Return (mkState (t ++ [EOF]) (len t + 1) 0 aq ap' false fm' pr).
Proof.
  destruct (percent_shape EOF (t ++ [EOF]) (len t) 0 aq ap fm pr)
    as [ap' [fm' Hp]].
  exists ap', fm'.
  pose proof (@step_pass db EOF
                (mkState (t ++ [EOF]) (len t) 0 aq ap false fm pr) _
                (getitem_mid t EOF []) eq_refl eq_refl eq_refl eq_refl) as Hs.
  rewrite (@scan_step db k _ _ Hs) by (fields; apply inside_buffer).
  fields. rewrite Hp. fields.
  apply scan_done. fields. rewrite len_closed. lia.
Qed.

(** The iteration at a quote that opens the text. *)
Lemma step_open_quote (t : list (option char)) :
  step db (mkState (Some DQUOTE :: t) 0 0 false false false false [])
  = Return (mkState t 0 0 true false false false []).
Proof.
  unfold step. fields.
  change (getitem (Some DQUOTE :: t) 0)
    with (getitem ([] ++ Some DQUOTE :: t) (len (@nil (option char)))).
  rewrite getitem_mid. fields.
  unfold handle_whitespace. cbn [is_whitespace char_in WHITESPACE existsb
    N.eqb Pos.eqb orb]. fields. cbn [Z.ltb Z.eqb Z.compare]. fields.
  unfold handle_quotes. cbn [is_char N.eqb Pos.eqb andb negb]. fields.
  change (delitem (Some DQUOTE :: t) 0)
    with (delitem ([Some DQUOTE] ++ t) 0).
  rewrite delitem_inside by (unfold len; simpl; lia).
  cbn [Z.to_nat firstn skipn app]. fields.
  unfold handle_percent. cbn [is_char N.eqb Pos.eqb andb negb]. fields.
  unfold handle_escapes. cbn [is_char N.eqb Pos.eqb]. fields.
  reflexivity.
Qed.

End Unterminated.

Lemma word_passes w : word w = true -> forallb passes w = true.
Proof.
  unfold word, free_of. intros H.
  apply forallb_forall. intros c Hc.
  rewrite forallb_forall in H. specialize (H c Hc).
  unfold passes, char_in in *. cbn [existsb] in *.
  destruct (N.eqb c 32), (N.eqb c 10), (N.eqb c 9), (N.eqb c 34),
    (N.eqb c 92); try discriminate; reflexivity.
Qed.

Lemma blank_not_in ws a :
  blank ws = true -> char_in a WHITESPACE = false -> ~ In a ws.
Proof.
  unfold blank. intros H Ha Hin.
  rewrite forallb_forall in H. specialize (H a Hin).
  rewrite H in Ha. discriminate.
Qed.

Lemma unterminated_buffer w ws w' :
  word w = true -> blank ws = true -> word w' = true ->
  buffer (DQUOTE :: w ++ ws ++ w')
  = Some DQUOTE :: (map Some w ++ map Some ws ++ map Some w') ++ [EOF].
Proof.
  intros Hw Hb Hw'.
  rewrite buffer_plain.
  - cbn [map app]. rewrite !map_app. reflexivity.
  - intros [E|H]; [discriminate|].
    apply in_app_or in H. destruct H as [H|H].
    + revert H. apply (@free_of_not_in _ _ _ Hw). cbn. tauto.
    + apply in_app_or in H. destruct H as [H|H].
      * revert H. apply (@blank_not_in _ _ Hb). reflexivity.
      * revert H. apply (@free_of_not_in _ _ _ Hw'). cbn. tauto.
  - intros [E|H]; [discriminate|].
    apply in_app_or in H. destruct H as [H|H].
    + revert H. apply (@free_of_not_in _ _ _ Hw). cbn. tauto.
    + apply in_app_or in H. destruct H as [H|H].
      * revert H. apply (@blank_not_in _ _ Hb). reflexivity.
      * revert H. apply (@free_of_not_in _ _ _ Hw'). cbn. tauto.
Qed.

Section UnterminatedQuote.

Variable db : unicode_db.

(** The scan over an opening quote, a word and a blank: the quote is
    removed and opens a span, the blank is counted. *)
Lemma scan_into_quote w ws (tr : list (option char)) k :
  word w = true -> blank ws = true ->
  exists ap fm,
    scan db (S (List.length w + (List.length ws + k)))
      (mkState (Some DQUOTE :: map Some w ++ map Some ws ++ tr) 0 0
         false false false false [])
    = scan db k
        (mkState (map Some w ++ map Some ws ++ tr) (len w + len ws) (len ws)
           true ap false fm []).
Proof.
  intros Hw Hb.
  rewrite (@scan_step db _ _ _ (step_open_quote db _)).
  2:{ fields. rewrite len_cons.
      pose proof (len_nonneg (map Some w ++ map Some ws ++ tr)). lia. }
  destruct (@scan_word db w [] (map Some ws ++ tr) 0 true false false []
              (List.length ws + k) (word_passes w Hw) (or_introl eq_refl))
    as [ap1 [fm1 H1]].
  cbn [app] in H1. change (len (@nil (option char))) with 0 in H1.
  rewrite Z.add_0_l in H1. rewrite H1.
  destruct (@scan_blank db ws (map Some w) tr 0 true ap1 fm1 [] k Hb)
    as [ap2 [fm2 H2]].
  rewrite len_map, Z.add_0_l in H2. rewrite H2.
  exists ap2, fm2. reflexivity.
Qed.



End UnterminatedQuote.

(** ** An unsupported escape *)

Lemma entity_plain w : ~ In LT w -> ~ In GT w -> flat_map entity w = w.
Proof.
  induction w as [|c w IH]; intros H1 H2; [reflexivity|].
  cbn [flat_map]. unfold entity at 1.
  destruct (N.eqb_spec c LT) as [E|_]; [exfalso; apply H1; left; exact E|].
  destruct (N.eqb_spec c GT) as [E|_]; [exfalso; apply H2; left; exact E|].
  cbn [app]. rewrite IH; [reflexivity| |]; intros H; [apply H1|apply H2];
    right; exact H.
Qed.

Section Unsupported.

Variable db : unicode_db.

(** The iteration at a backslash outside an escape. *)
Lemma step_backslash (tl tr : list (option char)) aq ap fm pr :
  exists ap' fm',
    step db (mkState (tl ++ Some BACKSLASH :: tr) (len tl) 0 aq ap false fm pr)
    = Return (mkState (tl ++ Some BACKSLASH :: tr) (len tl + 1) 0 aq ap'
                true fm' pr).
Proof.
  unfold step. fields. rewrite getitem_mid. fields.
  unfold handle_whitespace.
  cbn [is_whitespace char_in WHITESPACE existsb N.eqb Pos.eqb orb]. fields.
  cbn [Z.ltb Z.eqb Z.compare]. fields.
  unfold handle_quotes. cbn [is_char N.eqb Pos.eqb andb]. fields.
  destruct (percent_shape (Some BACKSLASH) (tl ++ Some BACKSLASH :: tr)
              (len tl) 0 aq ap fm pr) as [ap' [fm' Hp]].
  rewrite Hp. exists ap', fm'.
  unfold handle_escapes. cbn [is_char N.eqb Pos.eqb]. fields. reflexivity.
Qed.

(** The iteration at an unsupported character inside an escape. *)
Lemma step_unsupported (tl tr : list (option char)) c aq ap fm pr :
  supported c = false ->
  step db (mkState (tl ++ Some c :: tr) (len tl) 0 aq ap true fm pr)
  = Raise (NameError "name").
Proof.
  intros H. unfold supported, char_in in H. cbn [existsb] in H.
  repeat (apply orb_false_iff in H; destruct H as [? H]).
  unfold step. fields. rewrite getitem_mid. fields.
  assert (Hh : exists sc,
             handle_whitespace (Some c)
               (mkState (tl ++ Some c :: tr) (len tl) 0 aq ap true fm pr)
             = Return (mkState (tl ++ Some c :: tr) (len tl) sc aq ap true
                         fm pr)).
  { unfold handle_whitespace. destruct (is_whitespace (Some c)); fields.
    - eexists. reflexivity.
    - cbn [Z.ltb Z.eqb Z.compare]. fields. eexists. reflexivity. }
  destruct Hh as [sc Hh]. rewrite Hh. fields.
  unfold handle_quotes. fields. rewrite andb_false_r. fields.
  unfold handle_percent. fields. rewrite andb_false_r. cbn [negb andb].
  unfold handle_escapes, is_char. fields.
  match goal with E : N.eqb c BACKSLASH = false |- _ => rewrite E end.
  unfold escape_code, char_in. cbn [existsb].
  repeat match goal with E : N.eqb c _ = false |- _ => rewrite E; clear E end.
  reflexivity.
Qed.

(** A word, a backslash and an unsupported character: whatever follows,
    the scan ends with the [NameError]. *)
Lemma run_unsupported w c rest :
  word w = true -> supported c = false -> c <> LT -> c <> GT ->
  run db (w ++ BACKSLASH :: c :: rest) = Raise (NameError "name").
Proof.
  intros Hw Hc H1 H2.
  assert (Hbuf : buffer (w ++ BACKSLASH :: c :: rest)
                 = map Some w ++ Some BACKSLASH :: Some c
                     :: map Some (flat_map entity rest) ++ [EOF]).
  { rewrite buffer_entities, flat_map_app. cbn [flat_map].
    rewrite entity_plain.
    - unfold entity at 1 2. cbn [N.eqb Pos.eqb].
      apply N.eqb_neq in H1. apply N.eqb_neq in H2. rewrite H1, H2.
      cbn [app]. rewrite map_app. cbn [map].
      rewrite <- app_assoc. reflexivity.
    - apply (@free_of_not_in _ _ _ Hw). cbn. tauto.
    - apply (@free_of_not_in _ _ _ Hw). cbn. tauto. }
  set (tr := map Some (flat_map entity rest) ++ [EOF]) in *.
  destruct (@scan_word db w [] (Some BACKSLASH :: Some c :: tr) 0 false false
              false [] 2 (word_passes w Hw) (or_introl eq_refl))
    as [ap1 [fm1 Hs1]].
  cbn [app] in Hs1. change (len (@nil (option char))) with 0 in Hs1.
  rewrite Z.add_0_l in Hs1.
  destruct (@step_backslash (map Some w) (Some c :: tr) false ap1 fm1 [])
    as [ap2 [fm2 Hs2]].
  rewrite len_map in Hs2.
  pose proof (@step_unsupported (map Some w ++ [Some BACKSLASH]) tr c false
                ap2 fm2 [] Hc) as Hs3.
  rewrite <- app_assoc in Hs3. cbn [app] in Hs3.
  rewrite len_app, len_map, len_cons in Hs3.
  change (len (@nil (option char))) with 0 in Hs3.
  rewrite Z.add_0_r in Hs3.
  assert (Hscan : scan db (List.length w + 2) (start (w ++ BACKSLASH :: c :: rest))
                  = Raise (NameError "name")).
  { unfold start. rewrite Hbuf, Hs1.
    rewrite (@scan_step db 1 _ _ Hs2).
    2:{ fields. rewrite <- (len_map Some w). apply inside_buffer. }
    cbn [scan]. fields.
    destruct (Z.ltb_spec (len w + 1)
                (len (map Some w ++ Some BACKSLASH :: Some c :: tr))) as [_|Hge].
    - match goal with
      | |- context [step db ?st] =>
          assert (E : step db st = Raise (NameError "name")) by exact Hs3;
          rewrite E
      end.
      reflexivity.
    - exfalso. rewrite len_app, len_map, !len_cons in Hge.
      pose proof (len_nonneg tr). lia. }
  rewrite (@run_agrees db _ (List.length w + 2)); rewrite Hscan;
    [reflexivity | discriminate].
Qed.

End Unsupported.

(** ** A unicode escape at the end of a text *)

Lemma is_hex_cases c :
  is_hex c = true ->
  ((48 <= c <= 57) \/ (97 <= c <= 102) \/ (65 <= c <= 70))%N.
Proof.
  unfold is_hex, hex_value, ascii_digit. intros H.
  destruct (N.leb_spec 48 c), (N.leb_spec c 57); cbn [andb] in H;
    try (left; lia);
    destruct (N.leb_spec 97 c), (N.leb_spec c 102); cbn [andb] in H;
    try (right; left; lia);
    destruct (N.leb_spec 65 c), (N.leb_spec c 70); cbn [andb] in H;
    try (right; right; lia); discriminate.
Qed.

Lemma hex_number_zeros k h : hex_number 0 (repeat CH_0 k ++ h) = hex_number 0 h.
Proof.
  induction k as [|k IH]; [reflexivity|]. exact IH.
Qed.

Lemma hex_number_bound : forall h acc n,
  hex_number acc h = Some n ->
  (n < (acc + 1) * 16 ^ N.of_nat (List.length h))%N.
Proof.
  induction h as [|c h IH]; intros acc n H.
  - cbn [hex_number] in H. inversion H. subst.
    change (N.of_nat (@List.length char [])) with 0%N.
    rewrite N.pow_0_r. lia.
  - cbn [hex_number] in H.
    destruct (hex_value c) as [d|] eqn:E; [|discriminate].
    assert (Hd : (d < 16)%N).
    { unfold hex_value, ascii_digit in E.
      repeat match type of E with
      | (if ?b then _ else _) = _ =>
          let A := fresh "A" in
          let B := fresh "B" in
          destruct b eqn:A;
          [apply andb_true_iff in A; destruct A as [A B];
           apply N.leb_le in A; apply N.leb_le in B; inversion E; lia|]
      end.
      discriminate. }
    specialize (IH _ _ H).
    change (List.length (c :: h)) with (S (List.length h)).
    rewrite Nat2N.inj_succ, N.pow_succ_r'. nia.
Qed.

Section HexDigits.

Variable db : unicode_db.

Lemma hex_isalnum c : is_hex c = true -> char_isalnum db c = true.
Proof.
  intros H. apply is_hex_cases in H.
  unfold char_isalnum, ascii_digit, ascii_alpha.
  destruct (N.ltb_spec c 128); [|lia].
  destruct (N.leb_spec 48 c), (N.leb_spec c 57), (N.leb_spec 65 c),
    (N.leb_spec c 90), (N.leb_spec 97 c), (N.leb_spec c 122);
    try reflexivity; lia.
Qed.

Lemma hex_to_decimal c : is_hex c = true -> to_decimal db c = Some c.
Proof.
  intros H. apply is_hex_cases in H. unfold to_decimal.
  destruct (N.ltb_spec c 128); [reflexivity | lia].
Qed.

Lemma hex_to_decimals s : forallb is_hex s = true -> to_decimals db s = Some s.
Proof.
  induction s as [|c s IH]; intros H; [reflexivity|].
  cbn [forallb] in H. apply andb_true_iff in H. destruct H as [Hc Hs].
  cbn [to_decimals]. rewrite (hex_to_decimal c Hc), (IH Hs). reflexivity.
Qed.

Lemma hex_not_x c : is_hex c = true -> N.eqb c 120 || N.eqb c 88 = false.
Proof.
  intros H. apply is_hex_cases in H.
  destruct (N.eqb_spec c 120), (N.eqb_spec c 88); try reflexivity; lia.
Qed.

Lemma int16_hex s n :
  forallb is_hex s = true -> s <> [] -> hex_number 0 s = Some n ->
  int16 db s = Some n.
Proof.
  intros H Hne Hn. unfold int16. rewrite (hex_to_decimals s H).
  destruct s as [|z [|x [|d rest]]]; try contradiction; try exact Hn.
  cbn [forallb] in H.
  apply andb_true_iff in H. destruct H as [_ H].
  apply andb_true_iff in H. destruct H as [Hx _].
  rewrite (hex_not_x x Hx), andb_false_r. exact Hn.
Qed.

(** Up to four hexadecimal digits, zeros put before them, are read as the
    number they write. *)
Lemma codepoint_of_hex h n :
  forallb is_hex h = true -> (List.length h <= 4)%nat ->
  hex_number 0 h = Some n ->
  codepoint_of db
    (if len h <? 4 then repeat CH_0 (Z.to_nat (4 - len h)) ++ h else h)
  = Return n.
Proof.
  intros Hh Hl Hn.
  set (p := if len h <? 4 then repeat CH_0 (Z.to_nat (4 - len h)) ++ h else h).
  assert (Hp : p = repeat CH_0 (4 - List.length h) ++ h).
  { unfold p, len. destruct (Z.ltb_spec (Z.of_nat (List.length h)) 4).
    - f_equal. f_equal. lia.
    - replace (4 - List.length h)%nat with O by lia. reflexivity. }
  assert (Hhex : forallb is_hex p = true).
  { rewrite Hp, forallb_app, Hh, andb_true_r.
    apply forallb_forall. intros c Hc. apply repeat_spec in Hc. subst c.
    reflexivity. }
  assert (Hne : p <> []).
  { intros E. apply (f_equal (@List.length char)) in E.
    rewrite Hp, length_app, repeat_length in E. cbn [List.length] in E. lia. }
  assert (Hnum : hex_number 0 p = Some n)
    by (rewrite Hp, hex_number_zeros; exact Hn).
  unfold codepoint_of.
  assert (Ha : isalnum db p = true).
  { unfold isalnum. destruct p as [|c p']; [contradiction|].
    apply forallb_forall. intros x Hx. apply hex_isalnum.
    rewrite forallb_forall in Hhex. apply Hhex. exact Hx. }
  rewrite Ha. cbn [negb]. rewrite (@int16_hex p n Hhex Hne Hnum).
  pose proof (@hex_number_bound h 0 n Hn) as Hb.
  assert (Hpow : (16 ^ N.of_nat (List.length h) <= 16 ^ 4)%N)
    by (apply N.pow_le_mono_r; lia).
  change (16 ^ 4)%N with 65536%N in Hpow.
  unfold unichr. destruct (N.leb_spec n 1114111); [reflexivity | lia].
Qed.

End HexDigits.

(** ** The properties of the transcoder *)

(** Claim C1, on the code: a backslash before a character outside the
    supported set makes the scan build its message from the unbound
    [name], so the exception is a [NameError] that names neither the
    resource nor the two characters.  It is so for [a\qb], and for every
    text that begins with a word, a backslash and an unsupported character
    (angle brackets apart, which the scan meets as entities); and no
    exception of [unescape] ever carries a resource or a sequence. *)
Theorem unsupported_escape_raises_NameError (db : unicode_db) :
  unescape db (Some (str "a\qb")) = Raise (NameError "name") /\
  (forall w c rest,
     word w = true -> supported c = false -> c <> LT -> c <> GT ->
     unescape db (Some (w ++ BACKSLASH :: c :: rest))
     = Raise (NameError "name")) /\
  forall s,
    (exists r, unescape db (Some s) = Return (Some r)) \/
    unescape db (Some s) = Raise bad_unicode \/
    unescape db (Some s) = Raise (NameError "name").
Proof.
  split; [reflexivity|]. split.
  { intros w c rest Hw Hc H1 H2. unfold unescape.
    rewrite (@run_unsupported db w c rest Hw Hc H1 H2). reflexivity. }
  intros s.
  destruct (run_outcome db s) as [[st [r [_ [_ [_ H]]]]]|[e [_ [H [E|E]]]]].
  - left. exists r. exact H.
  - right. left. rewrite H, E. reflexivity.
  - right. right. rewrite H, E. reflexivity.
Qed.

(** Claim C2, refuted: two texts on which [unescape] returns the same
    value while the scan ends with different values of [formatted]; the
    flag cannot be read off what the caller receives. *)
Lemma formatted_flag_not_returned :
  (forall db,
     unescape db (Some (str "%d")) = Return (Some (str "%d")) /\
     unescape db (Some (str "\u0025d")) = Return (Some (str "%d"))) /\
  (forall db,
     exists st1 st2,
       run db (str "%d") = Return st1 /\ formatted st1 = true /\
       run db (str "\u0025d") = Return st2 /\ formatted st2 = false).
Proof.
  split; intros db.
  - split; reflexivity.
  - eexists. eexists. repeat split; reflexivity.
Qed.

(** Claim C2, amended.  For every text, [unescape] either raises one of
    the two exceptions of the escape handling, or returns exactly the
    characters the scan leaves before the closing [EOF], as a string and
    nothing more; the flag [formatted] stays in the state of the scan. *)
Theorem unescape_returns_text_only (db : unicode_db) (s : pystr) :
  (exists st r,
     run db s = Return st /\ text st = map Some r ++ [EOF] /\
     unescape db (Some s) = Return (Some r))
  \/
  (exists e,
     run db s = Raise e /\ unescape db (Some s) = Raise e /\ expected e).
Proof.
  destruct (run_outcome db s) as [[st [r [H1 [H2 [_ H3]]]]]|H].
  - left. exists st, r. repeat split; assumption.
  - right. exact H.
Qed.

(** Claim C3, refuted: two spaces in a row are collapsed, and an angle
    bracket is replaced by its entity, though neither is excluded by the
    claim and [escape] leaves both as they are. *)
Lemma roundtrip_fails_on_spaces_and_brackets :
  (free_of [BACKSLASH; DQUOTE; SQUOTE; NL; TAB] (str "a  b") = true /\
   startswith [AT] (str "a  b") = false /\
   escape (Some (str "a  b")) = Return (Some (str "a  b")) /\
   (forall db, unescape db (Some (str "a  b")) = Return (Some (str "a b"))) /\
   str "a b" <> str "a  b") /\
  (free_of [BACKSLASH; DQUOTE; SQUOTE; NL; TAB] (str "a<b") = true /\
   startswith [AT] (str "a<b") = false /\
   escape (Some (str "a<b")) = Return (Some (str "a<b")) /\
   (forall db, unescape db (Some (str "a<b")) = Return (Some (str "a&lt;b"))) /\
   str "a&lt;b" <> str "a<b").
Proof.
  repeat split; try reflexivity; discriminate.
Qed.

(** Claim C3, amended.  For every string without backslash, quotes,
    newline, tab and angle brackets, in which no two spaces are neighbours
    and which does not start with [@], [escape] returns a string that
    [unescape] takes back to the string itself. *)
Theorem roundtrip_restricted (db : unicode_db) (s : pystr) :
  free_of [BACKSLASH; DQUOTE; SQUOTE; NL; TAB] s = true ->
  startswith [AT] s = false ->
  free_of [LT; GT] s = true ->
  single_spaced s = true ->
  exists e,
    escape (Some s) = Return (Some e) /\
    unescape db (Some e) = Return (Some s).
Proof.
  intros Hf Hat Hb Hs. exists s. split.
  - apply escape_identity; try assumption;
      apply (@free_of_not_in _ _ _ Hf); cbn; tauto.
  - destruct (@scan_calm db s [] false false false false [] O) as [ap [fm H]].
    + apply calm_of_single_spaced; try assumption. discriminate.
    + discriminate.
    + assert (Hbuf : buffer s = map Some s ++ [EOF]).
      { apply buffer_plain; apply (@free_of_not_in _ _ _ Hb); cbn; tauto. }
      assert (Hrun : run db s = Return
                (mkState (map Some s ++ [EOF]) (len s + 1) 0 false ap false fm [])).
      { apply (@run_unique db s (S (List.length s) + 0)).
        unfold start. rewrite Hbuf. exact H. }
      unfold unescape. rewrite Hrun. fields. unfold joined. fields.
      rewrite getslice_but_last, join_map. reflexivity.
Qed.

Lemma roundtrip_restricted_witness :
  exists e,
    escape (Some (str "50% off @ a b")) = Return (Some e) /\
    unescape ascii_db (Some e) = Return (Some (str "50% off @ a b")).
Proof.
  apply (roundtrip_restricted ascii_db (str "50% off @ a b")); reflexivity.
Defined.

(** Claim C4, on the code: a single tab or newline inside a quoted span is
    replaced by a space, while a run of two tabs there stays as it is. *)
Theorem quoted_single_whitespace_becomes_space (db : unicode_db) :
  unescape db (Some ([DQUOTE] ++ str "a" ++ [TAB] ++ str "b" ++ [DQUOTE]))
  = Return (Some (str "a b")) /\
  unescape db (Some ([DQUOTE] ++ str "a" ++ [NL] ++ str "b" ++ [DQUOTE]))
  = Return (Some (str "a b")) /\
  unescape db (Some ([DQUOTE] ++ str "a" ++ [TAB; TAB] ++ str "b" ++ [DQUOTE]))
  = Return (Some (str "a" ++ [TAB; TAB] ++ str "b")).
Proof. repeat split; reflexivity. Qed.




(** Claim C6, on the code: the four characters [0x41] after [\u] are not
    all hexadecimal digits, yet they are accepted and read as the number
    [0x41]; four digits, and two digits at the end of the text, are read as
    the claim says. *)
Theorem unicode_escape_accepts_0x_prefix (db : unicode_db) :
  unescape db (Some (str "\u0x41")) = Return (Some (str "A")) /\
  forallb is_hex (str "0x41") = false /\
  unescape db (Some (str "\u0041")) = Return (Some (str "A")) /\
  unescape db (Some (str "\u41")) = Return (Some (str "A")) /\
  unescape db (Some (str "\u00g1")) = Raise bad_unicode.
Proof. repeat split; reflexivity. Qed.

(** Claim C7.  For every string, [escape] does not fail and returns the
    result of the five substitutions in their order (backslash, newline,
    tab, single quote, double quote), with a backslash put in front when
    that result starts with [@]; so [@mipmap/icon] becomes
    [\@mipmap/icon]. *)
Theorem escape_is_ordered_substitution :
  (forall s, escape (Some s) = Return (Some (encode_spec s))) /\
  escape (Some (str "@mipmap/icon")) = Return (Some (str "\@mipmap/icon")).
Proof.
  split; [apply escape_spec | reflexivity].
Qed.

(** Claim C8.  Absent input gives absent output for both operations, and
    neither raises: [unescape] of [None] returns [None], and so does
    [escape]. *)
Theorem absent_propagates (db : unicode_db) :
  unescape db None = Return None /\ escape None = Return None.
Proof. split; reflexivity. Qed.


(** Claim C10.  The empty string is a fixed point of both operations and
    is not the absent value: [unescape] of the empty string returns the
    empty string, raising nothing and with the flag [formatted] false at
    the end of the scan, and [escape] of the empty string returns the
    empty string; neither result is the one for [None]. *)
Theorem empty_string_fixed (db : unicode_db) :
  unescape db (Some []) = Return (Some []) /\
  (exists st, run db [] = Return st /\ formatted st = false) /\
  escape (Some []) = Return (Some []) /\
  unescape db (Some []) <> unescape db None /\
  escape (Some []) <> escape None.
Proof.
  split; [reflexivity|].
  split; [eexists; split; reflexivity|].
  split; [reflexivity|].
  split; discriminate.
Qed.

(** ** Further properties of the encoder *)

Lemma in_flat_map_escape_char x s :
  In x (flat_map escape_char s) -> exists c, In c s /\ In x (escape_char c).
Proof.
  intros H. apply in_flat_map in H. exact H.
Qed.

Lemma escape_char_clean c x :
  In x (escape_char c) -> x <> NL /\ x <> TAB.
Proof.
  unfold escape_char.
  destruct (N.eqb_spec c BACKSLASH); [cbn; intuition (subst; discriminate)|].
  destruct (N.eqb_spec c NL); [cbn; intuition (subst; discriminate)|].
  destruct (N.eqb_spec c TAB); [cbn; intuition (subst; discriminate)|].
  destruct (N.eqb_spec c SQUOTE); [cbn; intuition (subst; discriminate)|].
  destruct (N.eqb_spec c DQUOTE); [cbn; intuition (subst; discriminate)|].
  cbn. intros [E|[]]. subst x. split; assumption.
Qed.

Lemma escape_char_length c :
  (1 <= List.length (escape_char c) <= 2)%nat.
Proof.
  unfold escape_char.
  destruct (N.eqb c BACKSLASH); [cbn; lia|].
  destruct (N.eqb c NL); [cbn; lia|].
  destruct (N.eqb c TAB); [cbn; lia|].
  destruct (N.eqb c SQUOTE); [cbn; lia|].
  destruct (N.eqb c DQUOTE); cbn; lia.
Qed.

Lemma escape_one_pass s :
  escape (Some s) = Return (Some (guard_at (flat_map escape_char s))).
Proof.
  rewrite escape_spec. unfold encode_spec.
  rewrite substitutions_one_pass. reflexivity.
Qed.

(** ** Python lists: an item or a slice between two parts *)

Section ListMiddle.

Context {A : Type}.
Implicit Types tl mid tr r : list A.

Lemma getitem_at tl x tr k :
  k = len tl -> getitem (tl ++ x :: tr) k = Return x.
Proof. intros E. subst k. apply getitem_mid. Qed.

Lemma setitem_at tl y tr k x :
  k = len tl -> setitem (tl ++ y :: tr) k x = Return (tl ++ x :: tr).
Proof.
  intros E. subst k.
  change (tl ++ y :: tr) with (tl ++ [y] ++ tr). rewrite app_assoc.
  pose proof (len_nonneg tl) as Hn.
  rewrite setitem_inside
    by (rewrite len_app, len_cons; unfold len in *; simpl; lia).
  unfold len. rewrite Nat2Z.id.
  rewrite firstn_app_le, firstn_all by lia.
  rewrite skipn_all2 by (rewrite length_app; simpl; lia).
  rewrite <- app_assoc. reflexivity.
Qed.

Lemma delitem_at tl x tr k :
  k = len tl -> delitem (tl ++ x :: tr) k = Return (tl ++ tr).
Proof.
  intros E. subst k.
  change (tl ++ x :: tr) with (tl ++ [x] ++ tr). rewrite app_assoc.
  pose proof (len_nonneg tl) as Hn.
  rewrite delitem_inside
    by (rewrite len_app, len_cons; unfold len in *; simpl; lia).
  unfold len. rewrite Nat2Z.id.
  rewrite firstn_app_le, firstn_all by lia.
  rewrite skipn_all2 by (rewrite length_app; simpl; lia).
  rewrite app_nil_r. reflexivity.
Qed.

Lemma setslice_at tl mid tr lo hi r :
  lo = len tl -> hi = len tl + len mid ->
  setslice (tl ++ mid ++ tr) lo hi r = tl ++ r ++ tr.
Proof.
  intros E1 E2. subst lo hi. rewrite app_assoc.
  pose proof (len_nonneg tl) as Hn. pose proof (len_nonneg mid) as Hm.
  rewrite setslice_inside by (rewrite ?len_app; lia).
  rewrite <- len_app, skipn_len, app_nil_r.
  rewrite firstn_len, <- app_assoc. reflexivity.
Qed.

Lemma getslice_at tl mid tr lo hi :
  lo = len tl -> hi = len tl + len mid ->
  getslice (tl ++ mid ++ tr) lo hi = mid.
Proof.
  intros E1 E2. subst lo hi. rewrite app_assoc.
  pose proof (len_nonneg tl) as Hn. pose proof (len_nonneg mid) as Hm.
  rewrite getslice_inside by (rewrite ?len_app; lia).
  replace (Z.to_nat (len tl + len mid - len tl)) with (List.length mid)
    by (unfold len; lia).
  unfold len at 1. rewrite Nat2Z.id.
  rewrite skipn_app, skipn_all, Nat.sub_diag. cbn [app skipn].
  apply firstn_all.
Qed.

End ListMiddle.

(** ** Single iterations of the scan *)

(** Equations and bounds between lengths. *)
Ltac lengths :=
  rewrite ?len_app, ?len_cons, ?len_map;
  unfold len in *; cbn [List.length] in *; lia.

Section Steps.

Variable db : unicode_db.

(** At an item that is no whitespace, one whitespace counted before it is
    made a space, inside a quote or not. *)
Lemma flush_one x (tl : list (option char)) y tr k aq ap ae fm pr :
  is_whitespace x = false -> k = len tl + 1 ->
  handle_whitespace x (mkState (tl ++ y :: tr) k 1 aq ap ae fm pr)
  = Return (mkState (tl ++ Some SP :: tr) k 0 aq ap ae fm pr).
Proof.
  intros Hx Hk. unfold handle_whitespace. rewrite Hx. fields.
  cbn [Z.ltb Z.eqb Z.compare Pos.compare Pos.compare_cont Pos.eqb].
  rewrite (@setitem_at _ tl y tr (k - 1) (Some SP)) by lia.
  reflexivity.
Qed.

(** A run of two or more counted before it is replaced by one space,
    unless a quote is open and the item is not [EOF]. *)
Lemma flush_run x (tl : list (option char)) ws tr k aq ap ae fm pr :
  is_whitespace x = false -> (2 <= List.length ws)%nat ->
  k = len tl + len ws ->
  aq = false \/ is_EOF x = true ->
  handle_whitespace x
    (mkState (tl ++ map Some ws ++ tr) k (len ws) aq ap ae fm pr)
  = Return (mkState (tl ++ Some SP :: tr) (len tl + 1) 0 aq ap ae fm pr).
Proof.
  intros Hx Hn Hk Hq. unfold handle_whitespace. rewrite Hx. fields.
  destruct (Z.ltb_spec 1 (len ws)) as [_|H]; [|unfold len in H; lia].
  assert (Hc : negb aq || is_EOF x = true).
  { destruct Hq as [E|E]; rewrite E; [reflexivity | apply orb_true_r]. }
  rewrite Hc.
  rewrite (@setslice_at _ tl (map Some ws) tr (k - len ws) k [Some SP])
    by (rewrite ?len_map; lia).
  cbn [app]. fields. do 2 f_equal. lia.
Qed.

(** Inside an open quote, before an item other than [EOF], the run
    stays. *)
Lemma flush_kept x (t : list (option char)) k sc ap ae fm pr :
  is_whitespace x = false -> is_EOF x = false -> 1 < sc ->
  handle_whitespace x (mkState t k sc true ap ae fm pr)
  = Return (mkState t k 0 true ap ae fm pr).
Proof.
  intros Hx He Hs. unfold handle_whitespace. rewrite Hx. fields.
  destruct (Z.ltb_spec 1 sc); [|lia]. rewrite He. reflexivity.
Qed.

Lemma flush_none x (t : list (option char)) k aq ap ae fm pr :
  is_whitespace x = false ->
  handle_whitespace x (mkState t k 0 aq ap ae fm pr)
  = Return (mkState t k 0 aq ap ae fm pr).
Proof.
  intros Hx. unfold handle_whitespace. rewrite Hx. reflexivity.
Qed.

(** The iteration at an item that is no whitespace, quote or backslash,
    outside an escape, from what the whitespace handling leaves. *)
Lemma step_plain x st t k aq ap fm pr :
  getitem (text st) (i st) = Return x ->
  handle_whitespace x st = Return (mkState t k 0 aq ap false fm pr) ->
  is_char DQUOTE x = false -> is_char BACKSLASH x = false ->
  exists ap' fm',
    step db st = Return (mkState t (k + 1) 0 aq ap' false fm' pr).
Proof.
  intros Hg Hw Hq Hb.
  destruct (percent_shape x t k 0 aq ap fm pr) as [ap' [fm' Hp]].
  exists ap', fm'.
  rewrite (@step_pass db x st _ Hg Hw eq_refl Hq Hb).
  fields. rewrite Hp. reflexivity.
Qed.

(** The iteration at a backslash outside an escape. *)
Lemma step_escape_opens st t k aq ap fm pr :
  getitem (text st) (i st) = Return (Some BACKSLASH) ->
  handle_whitespace (Some BACKSLASH) st
  = Return (mkState t k 0 aq ap false fm pr) ->
  exists ap' fm',
    step db st = Return (mkState t (k + 1) 0 aq ap' true fm' pr).
Proof.
  intros Hg Hw.
  destruct (percent_shape (Some BACKSLASH) t k 0 aq ap fm pr)
    as [ap' [fm' Hp]].
  exists ap', fm'.
  unfold step. rewrite Hg. fields. rewrite Hw. fields.
  unfold handle_quotes. cbn [is_char N.eqb Pos.eqb andb]. fields.
  rewrite Hp. unfold handle_escapes. cbn [is_char N.eqb Pos.eqb]. fields.
  reflexivity.
Qed.

(** The iteration at a quote outside an escape: the quote is removed and
    the span opens or closes. *)
Lemma step_quote st (tl tr : list (option char)) k aq ap fm pr :
  getitem (text st) (i st) = Return (Some DQUOTE) ->
  handle_whitespace (Some DQUOTE) st
  = Return (mkState (tl ++ Some DQUOTE :: tr) k 0 aq ap false fm pr) ->
  k = len tl ->
  exists ap' fm',
    step db st = Return (mkState (tl ++ tr) k 0 (negb aq) ap' false fm' pr).
Proof.
  intros Hg Hw Hk.
  destruct (percent_shape (Some DQUOTE) (tl ++ tr) (k - 1) 0 (negb aq) ap fm pr)
    as [ap' [fm' Hp]].
  exists ap', fm'.
  unfold step. rewrite Hg. fields. rewrite Hw. fields.
  unfold handle_quotes. cbn [is_char N.eqb Pos.eqb andb negb]. fields.
  rewrite (@delitem_at _ tl (Some DQUOTE) tr k Hk). fields.
  cbn [negb]. fields.
  rewrite Hp. unfold handle_escapes. cbn [is_char N.eqb Pos.eqb]. fields.
  do 2 f_equal. lia.
Qed.

Lemma is_code_cases x :
  is_code x = true ->
  x = CH_n \/ x = CH_t \/ x = DQUOTE \/ x = SQUOTE \/ x = AT \/ x = BACKSLASH.
Proof.
  unfold is_code, char_in. cbn [existsb].
  destruct (N.eqb_spec x 110); [tauto|].
  destruct (N.eqb_spec x 116); [tauto|].
  destruct (N.eqb_spec x 34); [tauto|].
  destruct (N.eqb_spec x 39); [tauto|].
  destruct (N.eqb_spec x 64); [tauto|].
  destruct (N.eqb_spec x 92); [tauto|].
  discriminate.
Qed.

(** The iteration at the character of an escape code, inside the escape:
    backslash and character become the character the code stands for. *)
Lemma step_code (tl tr : list (option char)) x k aq ap fm pr :
  is_code x = true -> k = len tl + 1 ->
  step db (mkState (tl ++ Some BACKSLASH :: Some x :: tr) k 0 aq ap true fm pr)
  = Return (mkState (tl ++ Some (decoded x) :: tr) k 0 aq ap false fm pr).
Proof.
  intros Hx Hk. unfold step. fields.
  change (tl ++ Some BACKSLASH :: Some x :: tr)
    with (tl ++ [Some BACKSLASH] ++ Some x :: tr).
  rewrite app_assoc.
  rewrite (@getitem_at _ (tl ++ [Some BACKSLASH]) (Some x) tr k)
    by lengths.
  rewrite <- app_assoc. cbn [app]. fields.
  assert (Hw : is_whitespace (Some x) = false)
    by (destruct (is_code_cases x Hx) as [E|[E|[E|[E|[E|E]]]]]; subst x;
        reflexivity).
  rewrite flush_none by exact Hw. fields.
  unfold handle_quotes. fields. rewrite andb_false_r. fields.
  unfold handle_percent. fields. rewrite andb_false_r. cbn [negb andb].
  unfold handle_escapes. fields.
  assert (Hs2 : forall r,
            setslice (tl ++ Some BACKSLASH :: Some x :: tr) (k - 1) (k + 1) r
            = tl ++ r ++ tr).
  { intros r.
    apply (@setslice_at _ tl [Some BACKSLASH; Some x] tr (k - 1) (k + 1) r);
      [lia | lengths]. }
  assert (Hs1 : setslice (tl ++ Some BACKSLASH :: Some x :: tr) (k - 1) k []
                = tl ++ Some x :: tr).
  { apply (@setslice_at _ tl [Some BACKSLASH] (Some x :: tr) (k - 1) k []);
      [lia | lengths]. }
  destruct (is_code_cases x Hx) as [E|[E|[E|[E|[E|E]]]]]; subst x;
    cbn [is_char N.eqb Pos.eqb escape_code char_in existsb orb decoded];
    fields; rewrite ?Hs2, ?Hs1; cbn [app]; fields.
  1-5: do 2 f_equal; lia.
  change (tl ++ Some BACKSLASH :: Some BACKSLASH :: tr)
    with (tl ++ [Some BACKSLASH] ++ Some BACKSLASH :: tr).
  rewrite app_assoc.
  rewrite (@delitem_at _ (tl ++ [Some BACKSLASH]) (Some BACKSLASH) tr k)
    by lengths.
  cbn [negb]. fields. rewrite <- app_assoc. cbn [app].
  do 2 f_equal. lia.
Qed.

(** The iteration at the [u] of a unicode escape: up to four characters
    after it are taken, fewer than four only at the end of the text, and
    backslash, [u] and characters become the code point read from them. *)
Lemma step_unicode (tl tr : list (option char)) h k aq ap fm pr :
  k = len tl + 1 -> (List.length h <= 4)%nat ->
  tr = [EOF] \/ (List.length h = 4%nat /\ tr <> []) ->
  step db (mkState (tl ++ Some BACKSLASH :: Some CH_u :: map Some h ++ tr)
             k 0 aq ap true fm pr)
  = match codepoint_of db (padded h) with
    | Return n =>
        Return (mkState (tl ++ Some n :: tr) k 0 aq ap false fm
                  (pr ++ [padded h]))
    | Raise e => Raise e
    | OutOfFuel => OutOfFuel
    end.
Proof.
  intros Hk Hl Htr. unfold step. fields.
  set (t := tl ++ Some BACKSLASH :: Some CH_u :: map Some h ++ tr).
  assert (Ht1 : t = (tl ++ [Some BACKSLASH]) ++ Some CH_u :: map Some h ++ tr)
    by (unfold t; rewrite <- app_assoc; reflexivity).
  assert (Ht2 : t = (tl ++ [Some BACKSLASH; Some CH_u]) ++ map Some h ++ tr)
    by (unfold t; rewrite <- app_assoc; reflexivity).
  assert (Ht3 : t = tl ++ (Some BACKSLASH :: Some CH_u :: map Some h) ++ tr)
    by reflexivity.
  assert (Hg : getitem t k = Return (Some CH_u)).
  { rewrite Ht1. apply getitem_at. lengths. }
  rewrite Hg. fields.
  rewrite flush_none by reflexivity. fields.
  unfold handle_quotes. cbn [is_char N.eqb Pos.eqb andb]. fields.
  unfold handle_percent. fields. cbn [is_char N.eqb Pos.eqb andb negb].
  fields.
  unfold handle_escapes. cbn [is_char N.eqb Pos.eqb]. fields.
  unfold escape_code. cbn [N.eqb Pos.eqb char_in existsb orb].
  unfold unicode_escape. fields.
  assert (Hmax : Z.min (k + 5) (len t - 1) = len tl + 2 + len h).
  { unfold t. rewrite len_app, !len_cons, len_app, len_map.
    destruct Htr as [E|[E Hne]].
    - subst tr. unfold len in *. cbn [List.length]. lia.
    - destruct tr as [|y tr']; [contradiction|].
      rewrite len_cons. pose proof (len_nonneg tr'). unfold len in *. lia. }
  rewrite Hmax.
  assert (Hs : getslice t (k + 1) (len tl + 2 + len h) = map Some h).
  { rewrite Ht2. apply getslice_at; lengths. }
  rewrite Hs, join_map. fields. fold (padded h).
  destruct (codepoint_of db (padded h)) as [n|e|]; fields; try reflexivity.
  assert (Hr : setslice t (k - 1) (len tl + 2 + len h) [Some n]
               = tl ++ Some n :: tr).
  { rewrite Ht3.
    apply (@setslice_at _ tl (Some BACKSLASH :: Some CH_u :: map Some h) tr
             (k - 1) (len tl + 2 + len h) [Some n]); lengths. }
  rewrite Hr. do 2 f_equal. lia.
Qed.

End Steps.

(** ** Whitespace between words *)

(** Two lists that differ in how they are put together. *)
Ltac lists :=
  repeat progress (cbn [app map]; rewrite ?map_app; rewrite <- ?app_assoc);
  reflexivity.

(** Two states that differ in how their buffers and indices are written. *)
Ltac same_fields := f_equal; first [reflexivity | lengths | lists].
Ltac same_state :=
  first [reflexivity | same_fields | (f_equal; first [lia | same_fields])].

(** Continue a scan with an equation for a state written differently. *)
Ltac by_scan H :=
  match type of H with
  | ?L = _ =>
      match goal with
      | |- ?G = _ =>
          replace G with L;
          [rewrite H | same_state]
      end
  end.

Lemma word_cons c w : word (c :: w) = true -> passes c = true /\ word w = true.
Proof.
  intros H. pose proof (word_passes _ H) as Hp.
  cbn [forallb] in Hp. apply andb_true_iff in Hp. destruct Hp as [Hc _].
  unfold word, free_of in H. cbn [forallb] in H.
  apply andb_true_iff in H. destruct H as [_ H].
  split; assumption.
Qed.

Lemma words_buffer w ws w' :
  word w = true -> blank ws = true -> word w' = true ->
  buffer (w ++ ws ++ w') = (map Some w ++ map Some ws ++ map Some w') ++ [EOF].
Proof.
  intros Hw Hb Hw'.
  pose proof (@unterminated_buffer w ws w' Hw Hb Hw') as H.
  rewrite !buffer_entities in *. cbn [flat_map] in H.
  unfold entity at 1 in H. cbn [N.eqb Pos.eqb app map] in H.
  inversion H as [H1]. reflexivity.
Qed.

Section Gaps.

Variable db : unicode_db.

(** The iteration at an item after a blank: the blank becomes one space,
    unless it is longer than one and inside a quote before a character. *)
Lemma scan_gap ws (tl : list (option char)) x tr aq ap fm pr k :
  blank ws = true -> ws <> [] ->
  is_whitespace x = false -> is_char DQUOTE x = false ->
  is_char BACKSLASH x = false ->
  aq = false \/ is_EOF x = true \/ List.length ws = 1%nat ->
  exists ap' fm',
    scan db (S k)
      (mkState (tl ++ map Some ws ++ x :: tr) (len tl + len ws) (len ws)
         aq ap false fm pr)
    = scan db k
        (mkState (tl ++ Some SP :: x :: tr) (len tl + 2) 0 aq ap' false fm' pr).
Proof.
  intros Hb Hne Hx Hq Hbs Hcase.
  set (st := mkState (tl ++ map Some ws ++ x :: tr) (len tl + len ws) (len ws)
               aq ap false fm pr).
  assert (Hh : handle_whitespace x st
               = Return (mkState (tl ++ Some SP :: x :: tr) (len tl + 1) 0
                           aq ap false fm pr)).
  { destruct ws as [|c [|c' ws']]; [contradiction| |].
    - apply (@flush_one x tl (Some c) (x :: tr)); [exact Hx | lengths].
    - apply (@flush_run x tl (c :: c' :: ws') (x :: tr));
        [exact Hx | cbn [List.length]; lia | reflexivity |].
      destruct Hcase as [E|[E|E]]; [left; exact E | right; exact E |].
      cbn [List.length] in E. lia. }
  assert (Hg : getitem (text st) (i st) = Return x).
  { unfold st. fields. rewrite app_assoc. apply getitem_at. lengths. }
  destruct (@step_plain db x st _ _ _ _ _ _ Hg Hh Hq Hbs) as [ap' [fm' Hs]].
  exists ap', fm'.
  rewrite (@scan_step db k _ _ Hs).
  - same_state.
  - unfold st. fields. lengths.
Qed.

(** Between two words outside quotes, or after the last word, a blank of
    any length becomes one space. *)
Lemma run_collapse w ws w' :
  word w = true -> blank ws = true -> ws <> [] -> word w' = true ->
  exists st,
    run db (w ++ ws ++ w') = Return st /\
    text st = map Some (w ++ SP :: w') ++ [EOF].
Proof.
  intros Hw Hb Hne Hw'.
  pose proof (words_buffer w ws w' Hw Hb Hw') as Hbuf.
  destruct w' as [|c w''].
  - destruct (@scan_word db w [] (map Some ws ++ [EOF]) 0 false false false []
                (List.length ws + 1) (word_passes w Hw) (or_introl eq_refl))
      as [ap1 [fm1 H1]].
    destruct (@scan_blank db ws (map Some w) [EOF] 0 false ap1 fm1 [] 1 Hb)
      as [ap2 [fm2 H2]].
    destruct (@scan_gap ws (map Some w) EOF [] false ap2 fm2 [] O Hb Hne
                eq_refl eq_refl eq_refl (or_introl eq_refl))
      as [ap3 [fm3 H3]].
    eexists. split.
    + apply (@run_unique db _ (List.length w + (List.length ws + 1))).
      unfold start. rewrite Hbuf.
      by_scan H1. by_scan H2. by_scan H3.
      apply scan_done. fields. lengths.
    + fields. lists.
  - destruct (word_cons c w'' Hw') as [Hc Hw''].
    destruct (passes_tests c Hc) as [T1 [T2 T3]].
    destruct (@scan_word db w [] (map Some ws ++ Some c :: map Some w'' ++ [EOF])
                0 false false false []
                (List.length ws + (S (List.length w'' + 1)))
                (word_passes w Hw) (or_introl eq_refl))
      as [ap1 [fm1 H1]].
    destruct (@scan_blank db ws (map Some w) (Some c :: map Some w'' ++ [EOF])
                0 false ap1 fm1 [] (S (List.length w'' + 1)) Hb)
      as [ap2 [fm2 H2]].
    destruct (@scan_gap ws (map Some w) (Some c) (map Some w'' ++ [EOF]) false
                ap2 fm2 [] (List.length w'' + 1) Hb Hne T1 T2 T3
                (or_introl eq_refl))
      as [ap3 [fm3 H3]].
    destruct (@scan_word db w'' (map Some w ++ [Some SP; Some c]) [EOF]
                0 false ap3 fm3 [] 1
                (word_passes w'' Hw'') (or_introl eq_refl))
      as [ap4 [fm4 H4]].
    destruct (@scan_eof_plain db (map Some w ++ Some SP :: Some c :: map Some w'')
                false ap4 fm4 [] O) as [ap5 [fm5 H5]].
    eexists. split.
    + apply (@run_unique db _
               (List.length w + (List.length ws + (S (List.length w'' + 1))))).
      unfold start. rewrite Hbuf.
      by_scan H1. by_scan H2. by_scan H3. by_scan H4. by_scan H5.
      reflexivity.
    + fields. lists.
Qed.

End Gaps.

(** ** Quotes, escape codes and unicode escapes between words *)

Lemma buffer_free s : free_of [LT; GT] s = true -> buffer s = map Some s ++ [EOF].
Proof.
  intros H. apply buffer_plain; apply (@free_of_not_in _ _ _ H); cbn; tauto.
Qed.

Lemma free_of_app cs a b :
  free_of cs (a ++ b) = free_of cs a && free_of cs b.
Proof. unfold free_of. apply forallb_app. Qed.

Lemma word_free w : word w = true -> free_of [LT; GT] w = true.
Proof.
  unfold word, free_of. intros H.
  apply forallb_forall. intros c Hc.
  rewrite forallb_forall in H. specialize (H c Hc).
  unfold char_in in *. cbn [existsb] in *.
  destruct (N.eqb c 60), (N.eqb c 62); try reflexivity;
    rewrite ?orb_true_r in H; discriminate.
Qed.

Lemma blank_free ws : blank ws = true -> free_of [LT; GT] ws = true.
Proof.
  unfold blank, free_of. intros H.
  apply forallb_forall. intros c Hc.
  rewrite forallb_forall in H. specialize (H c Hc).
  destruct (@whitespace_cases (Some c) H) as [E|[E|E]]; inversion E;
    reflexivity.
Qed.

Lemma hex_free h : forallb is_hex h = true -> free_of [LT; GT] h = true.
Proof.
  unfold free_of. intros H.
  apply forallb_forall. intros c Hc.
  rewrite forallb_forall in H. specialize (H c Hc).
  apply is_hex_cases in H. unfold char_in. cbn [existsb].
  destruct (N.eqb_spec c 60), (N.eqb_spec c 62); try reflexivity; lia.
Qed.

Section Between.

Variable db : unicode_db.

(** The iteration at a quote, with no whitespace counted or with a run
    inside the span it closes. *)
Lemma scan_quote (tl tr : list (option char)) sc aq ap fm pr k :
  sc = 0 \/ (1 < sc /\ aq = true) ->
  exists ap' fm',
    scan db (S k) (mkState (tl ++ Some DQUOTE :: tr) (len tl) sc aq ap false fm pr)
    = scan db k (mkState (tl ++ tr) (len tl) 0 (negb aq) ap' false fm' pr).
Proof.
  intros Hsc.
  set (st := mkState (tl ++ Some DQUOTE :: tr) (len tl) sc aq ap false fm pr).
  assert (Hh : handle_whitespace (Some DQUOTE) st
               = Return (mkState (tl ++ Some DQUOTE :: tr) (len tl) 0 aq ap
                           false fm pr)).
  { destruct Hsc as [E|[E1 E2]].
    - subst sc. apply flush_none. reflexivity.
    - subst aq. apply flush_kept; [reflexivity | reflexivity | exact E1]. }
  destruct (@step_quote db st tl tr (len tl) aq ap fm pr
              (getitem_mid tl (Some DQUOTE) tr) Hh eq_refl) as [ap' [fm' Hs]].
  exists ap', fm'.
  rewrite (@scan_step db k _ _ Hs); [reflexivity|].
  unfold st. fields. apply inside_buffer.
Qed.

(** The iteration at a backslash outside an escape, no whitespace
    counted. *)
Lemma scan_backslash (tl tr : list (option char)) aq ap fm pr k :
  exists ap' fm',
    scan db (S k) (mkState (tl ++ Some BACKSLASH :: tr) (len tl) 0 aq ap false fm pr)
    = scan db k (mkState (tl ++ Some BACKSLASH :: tr) (len tl + 1) 0 aq ap'
                   true fm' pr).
Proof.
  destruct (@step_backslash db tl tr aq ap fm pr) as [ap' [fm' Hs]].
  exists ap', fm'.
  rewrite (@scan_step db k _ _ Hs); [reflexivity|].
  fields. apply inside_buffer.
Qed.

(** A quoted span keeps a blank of two or more as it is; the quotes go. *)
Lemma run_quoted w ws w' :
  word w = true -> blank ws = true -> (2 <= List.length ws)%nat ->
  word w' = true ->
  exists st,
    run db (DQUOTE :: w ++ ws ++ w' ++ [DQUOTE]) = Return st /\
    text st = map Some (w ++ ws ++ w') ++ [EOF].
Proof.
  intros Hw Hb Hn Hw'.
  assert (Hbuf : buffer (DQUOTE :: w ++ ws ++ w' ++ [DQUOTE])
                 = Some DQUOTE :: map Some w ++ map Some ws
                     ++ map Some w' ++ [Some DQUOTE; EOF]).
  { rewrite buffer_free; [lists|].
    change (DQUOTE :: w ++ ws ++ w' ++ [DQUOTE])
      with ([DQUOTE] ++ w ++ ws ++ w' ++ [DQUOTE]).
    rewrite !free_of_app, (word_free w Hw), (blank_free ws Hb),
      (word_free w' Hw'). reflexivity. }
  destruct (@scan_into_quote db w ws (map Some w' ++ [Some DQUOTE; EOF])
              (List.length w' + 2) Hw Hb) as [ap1 [fm1 H1]].
  assert (H2 : exists ap2 fm2,
            scan db (List.length w' + 2)
              (mkState (map Some w ++ map Some ws ++ map Some w'
                          ++ [Some DQUOTE; EOF])
                 (len w + len ws) (len ws) true ap1 false fm1 [])
            = scan db 1
                (mkState (map Some w ++ map Some ws ++ map Some w' ++ [EOF])
                   (len w + len ws + len w') 0 false ap2 false fm2 [])).
  { destruct w' as [|c w''].
    - destruct (@scan_quote (map Some w ++ map Some ws) [EOF] (len ws) true
                  ap1 fm1 [] 1) as [ap2 [fm2 H]].
      { right. split; [lengths | reflexivity]. }
      exists ap2, fm2. by_scan H. same_state.
    - destruct (@scan_word db (c :: w'') (map Some w ++ map Some ws)
                  [Some DQUOTE; EOF] (len ws) true ap1 fm1 [] 2
                  (word_passes _ Hw')) as [ap2 [fm2 H]].
      { right. split; [lengths|]. split; [reflexivity | discriminate]. }
      destruct (@scan_quote (map Some w ++ map Some ws ++ map Some (c :: w''))
                  [EOF] 0 true ap2 fm2 [] 1 (or_introl eq_refl))
        as [ap3 [fm3 H']].
      exists ap3, fm3. by_scan H. by_scan H'. same_state. }
  destruct H2 as [ap2 [fm2 H2]].
  destruct (@scan_eof_plain db (map Some w ++ map Some ws ++ map Some w')
              false ap2 fm2 [] O) as [ap3 [fm3 H3]].
  eexists. split.
  - apply (@run_unique db _ (S (List.length w + (List.length ws
                                                  + (List.length w' + 2))))).
    unfold start. rewrite Hbuf, H1, H2.
    by_scan H3. reflexivity.
  - fields. lists.
Qed.

(** An escape code between two words becomes the character it stands
    for. *)
Lemma run_code w x w' :
  word w = true -> is_code x = true -> word w' = true ->
  exists st,
    run db (w ++ BACKSLASH :: x :: w') = Return st /\
    text st = map Some (w ++ decoded x :: w') ++ [EOF].
Proof.
  intros Hw Hx Hw'.
  assert (Hbuf : buffer (w ++ BACKSLASH :: x :: w')
                 = map Some w ++ Some BACKSLASH :: Some x
                     :: map Some w' ++ [EOF]).
  { rewrite buffer_free; [lists|].
    change (w ++ BACKSLASH :: x :: w') with (w ++ [BACKSLASH; x] ++ w').
    rewrite !free_of_app, (word_free w Hw), (word_free w' Hw').
    destruct (is_code_cases x Hx) as [E|[E|[E|[E|[E|E]]]]]; subst x;
      reflexivity. }
  destruct (@scan_word db w [] (Some BACKSLASH :: Some x :: map Some w' ++ [EOF])
              0 false false false [] (S (S (List.length w' + 1)))
              (word_passes w Hw) (or_introl eq_refl)) as [ap1 [fm1 H1]].
  destruct (@scan_backslash (map Some w) (Some x :: map Some w' ++ [EOF])
              false ap1 fm1 [] (S (List.length w' + 1))) as [ap2 [fm2 H2]].
  pose proof (@step_code db (map Some w) (map Some w' ++ [EOF]) x
                (len (map Some w) + 1) false ap2 fm2 [] Hx eq_refl) as H3.
  destruct (@scan_word db w' (map Some w ++ [Some (decoded x)]) [EOF]
              0 false ap2 fm2 [] 1 (word_passes w' Hw') (or_introl eq_refl))
    as [ap4 [fm4 H4]].
  destruct (@scan_eof_plain db (map Some w ++ Some (decoded x) :: map Some w')
              false ap4 fm4 [] O) as [ap5 [fm5 H5]].
  eexists. split.
  - apply (@run_unique db _
             (List.length w + (S (S (List.length w' + 1))))).
    unfold start. rewrite Hbuf.
    by_scan H1. by_scan H2.
    rewrite (@scan_step db _ _ _ H3) by (fields; lengths).
    by_scan H4. by_scan H5. reflexivity.
  - fields. lists.
Qed.

End Between.

Section UnicodeEscapes.

Variable db : unicode_db.

Lemma scan_raise k st e :
  step db st = Raise e -> i st < len (text st) ->
  scan db (S k) st = Raise e.
Proof.
  intros E H. simpl.
  destruct (Z.ltb_spec (i st) (len (text st))); [|lia].
  rewrite E. reflexivity.
Qed.

(** A unicode escape after a word, with up to four characters taken at
    the end of the text or four before another word: the scan goes
    through when the characters are read as a code point, and raises
    otherwise. *)
Lemma run_unicode w h w' :
  word w = true -> free_of [LT; GT] h = true -> (List.length h <= 4)%nat ->
  List.length h = 4%nat \/ w' = [] -> word w' = true ->
  match codepoint_of db (padded h) with
  | Return n =>
      exists st,
        run db (w ++ BACKSLASH :: CH_u :: h ++ w') = Return st /\
        text st = map Some (w ++ n :: w') ++ [EOF]
  | Raise e => run db (w ++ BACKSLASH :: CH_u :: h ++ w') = Raise e
  | OutOfFuel => True
  end.
Proof.
  intros Hw Hh Hl Hcase Hw'.
  assert (Hbuf : buffer (w ++ BACKSLASH :: CH_u :: h ++ w')
                 = map Some w ++ Some BACKSLASH :: Some CH_u
                     :: map Some h ++ map Some w' ++ [EOF]).
  { rewrite buffer_free; [lists|].
    change (w ++ BACKSLASH :: CH_u :: h ++ w')
      with (w ++ [BACKSLASH; CH_u] ++ h ++ w').
    rewrite !free_of_app, (word_free w Hw), (word_free w' Hw'), Hh.
    reflexivity. }
  assert (Htr : map Some w' ++ [EOF] = [EOF] \/
                (List.length h = 4%nat /\ map Some w' ++ [EOF] <> [])).
  { destruct Hcase as [E|E].
    - right. split; [exact E|]. destruct w'; discriminate.
    - left. subst w'. reflexivity. }
  destruct (@scan_word db w []
              (Some BACKSLASH :: Some CH_u :: map Some h ++ map Some w' ++ [EOF])
              0 false false false [] (S (S (List.length w' + 1)))
              (word_passes w Hw) (or_introl eq_refl)) as [ap1 [fm1 H1]].
  destruct (@scan_backslash db (map Some w)
              (Some CH_u :: map Some h ++ map Some w' ++ [EOF])
              false ap1 fm1 [] (S (List.length w' + 1))) as [ap2 [fm2 H2]].
  pose proof (@step_unicode db (map Some w) (map Some w' ++ [EOF]) h
                (len (map Some w) + 1) false ap2 fm2 [] eq_refl Hl Htr) as H3.
  assert (Hin : len (map Some w) + 1
                < len (map Some w ++ Some BACKSLASH :: Some CH_u
                         :: map Some h ++ map Some w' ++ [EOF])) by lengths.
  destruct (codepoint_of db (padded h)) as [n|e|]; [| |exact I].
  - destruct (@scan_word db w' (map Some w ++ [Some n]) [EOF]
                0 false ap2 fm2 ([] ++ [padded h]) 1
                (word_passes w' Hw') (or_introl eq_refl)) as [ap4 [fm4 H4]].
    destruct (@scan_eof_plain db (map Some w ++ Some n :: map Some w')
                false ap4 fm4 ([] ++ [padded h]) O) as [ap5 [fm5 H5]].
    eexists. split.
    + apply (@run_unique db _
               (List.length w + (S (S (List.length w' + 1))))).
      unfold start. rewrite Hbuf.
      by_scan H1. by_scan H2.
      rewrite (@scan_step db _ _ _ H3) by (fields; exact Hin).
      by_scan H4. by_scan H5. reflexivity.
    + fields. lists.
  - assert (Hscan : scan db (List.length w + (S (S (List.length w' + 1))))
                      (start (w ++ BACKSLASH :: CH_u :: h ++ w'))
                    = Raise e).
    { unfold start. rewrite Hbuf.
      by_scan H1. by_scan H2.
      apply scan_raise; [exact H3 | fields; exact Hin]. }
    rewrite (@run_agrees db _ (List.length w + (S (S (List.length w' + 1)))));
      rewrite Hscan; [reflexivity | discriminate].
Qed.

(** Characters that are not all alphanumeric are not read as a code
    point. *)
Lemma codepoint_of_not_alnum h :
  forallb (char_isalnum db) h = false ->
  codepoint_of db (padded h) = Raise bad_unicode.
Proof.
  intros H. unfold codepoint_of.
  assert (Ha : isalnum db (padded h) = false).
  { unfold isalnum. destruct (padded h) as [|c p] eqn:E; [reflexivity|].
    rewrite <- E. unfold padded.
    destruct (len h <? 4); [|exact H].
    rewrite forallb_app, H. apply andb_false_r. }
  rewrite Ha. reflexivity.
Qed.

End UnicodeEscapes.

(** ** The round trip through [escape] and [unescape] *)

Lemma apart_of_single_spaced : forall s sp,
  single_spaced s = true ->
  (sp = true -> startswith [SP] s = false) ->
  apart sp s = true.
Proof.
  induction s as [|c s IH]; intros sp Hs Hsp; [reflexivity|].
  cbn [single_spaced] in Hs. apply andb_true_iff in Hs. destruct Hs as [Hn Hs].
  cbn [apart].
  destruct (N.eqb_spec c SP) as [E|E].
  - subst c. apply andb_true_iff. split.
    + destruct sp; [|reflexivity]. specialize (Hsp eq_refl). discriminate.
    + apply IH; [assumption|]. intros _.
      destruct s as [|b s']; [reflexivity|].
      cbn [startswith]. rewrite andb_true_r.
      cbn [N.eqb Pos.eqb andb] in Hn. apply negb_true_iff in Hn.
      rewrite N.eqb_sym. exact Hn.
  - apply IH; [assumption | discriminate].
Qed.

(** The three kinds of character for the encoder: a space, a character
    written as an escape code, and a character written as itself, which
    the scan passes over. *)
Lemma escape_char_cases c :
  (c = SP /\ escape_char c = [SP]) \/
  (exists x, escape_char c = [BACKSLASH; x] /\ is_code x = true /\
             decoded x = c /\ c <> SP) \/
  (escape_char c = [c] /\ passes c = true).
Proof.
  unfold escape_char.
  destruct (N.eqb_spec c BACKSLASH) as [E|E1].
  { subst. right. left. exists BACKSLASH. repeat split. discriminate. }
  destruct (N.eqb_spec c NL) as [E|E2].
  { subst. right. left. exists CH_n. repeat split. discriminate. }
  destruct (N.eqb_spec c TAB) as [E|E3].
  { subst. right. left. exists CH_t. repeat split. discriminate. }
  destruct (N.eqb_spec c SQUOTE) as [E|E4].
  { subst. right. left. exists SQUOTE. repeat split. discriminate. }
  destruct (N.eqb_spec c DQUOTE) as [E|E5].
  { subst. right. left. exists DQUOTE. repeat split. discriminate. }
  destruct (N.eqb_spec c SP) as [E|E6].
  { subst. left. split; reflexivity. }
  right. right. split; [reflexivity|].
  unfold passes, char_in. cbn [existsb].
  apply N.eqb_neq in E1, E2, E3, E5, E6.
  rewrite E1, E2, E3, E5, E6. reflexivity.
Qed.

Lemma escape_char_free c :
  negb (char_in c [LT; GT]) = true -> free_of [LT; GT] (escape_char c) = true.
Proof.
  intros H.
  destruct (escape_char_cases c) as [[E1 E2]|[[x [E1 [E2 _]]]|[E1 _]]];
    rewrite ?E2, ?E1.
  - reflexivity.
  - destruct (is_code_cases x E2) as [E|[E|[E|[E|[E|E]]]]]; subst x;
      reflexivity.
  - unfold free_of. cbn [forallb]. rewrite H. reflexivity.
Qed.

Lemma escaped_free s :
  free_of [LT; GT] s = true ->
  free_of [LT; GT] (flat_map escape_char s) = true.
Proof.
  induction s as [|c s IH]; intros H; [reflexivity|].
  unfold free_of in H. cbn [forallb] in H.
  apply andb_true_iff in H. destruct H as [Hc Hs].
  cbn [flat_map]. rewrite free_of_app, (escape_char_free c Hc).
  apply IH. exact Hs.
Qed.

Section RoundTrip.

Variable db : unicode_db.

(** What the whitespace handling does with at most one space counted. *)
Lemma flush_space x (tl tr : list (option char)) sp aq ap ae fm pr :
  is_whitespace x = false ->
  (sp = true -> exists tl0, tl = tl0 ++ [Some SP]) ->
  handle_whitespace x
    (mkState (tl ++ tr) (len tl) (if sp then 1 else 0) aq ap ae fm pr)
  = Return (mkState (tl ++ tr) (len tl) 0 aq ap ae fm pr).
Proof.
  intros Hx Hsp. destruct sp.
  - destruct (Hsp eq_refl) as [tl0 E]. subst tl.
    rewrite <- app_assoc. cbn [app].
    apply flush_one; [exact Hx | lengths].
  - apply flush_none. exact Hx.
Qed.

(** The iteration at a whitespace character outside an escape. *)
Lemma step_space (tl tr : list (option char)) c sc aq ap fm pr :
  char_in c WHITESPACE = true ->
  exists ap' fm',
    step db (mkState (tl ++ Some c :: tr) (len tl) sc aq ap false fm pr)
    = Return (mkState (tl ++ Some c :: tr) (len tl + 1) (sc + 1) aq ap' false
                fm' pr).
Proof.
  intros Hc.
  assert (Hh : handle_whitespace (Some c)
                 (mkState (tl ++ Some c :: tr) (len tl) sc aq ap false fm pr)
               = Return (mkState (tl ++ Some c :: tr) (len tl) (sc + 1) aq ap
                           false fm pr)).
  { unfold handle_whitespace. cbn [is_whitespace]. rewrite Hc. reflexivity. }
  assert (T : is_char DQUOTE (Some c) = false /\
              is_char BACKSLASH (Some c) = false).
  { destruct (@whitespace_cases (Some c) Hc) as [E|[E|E]];
      inversion E; split; reflexivity. }
  destruct T as [T2 T3].
  destruct (percent_shape (Some c) (tl ++ Some c :: tr) (len tl) (sc + 1)
              aq ap fm pr) as [ap' [fm' Hp]].
  exists ap', fm'.
  rewrite (@step_pass db (Some c)
             (mkState (tl ++ Some c :: tr) (len tl) sc aq ap false fm pr) _
             (getitem_mid tl (Some c) tr) Hh eq_refl T2 T3).
  fields. rewrite Hp. reflexivity.
Qed.

(** The scan over an escaped text gives the text back. *)
Lemma scan_escaped : forall s (tl : list (option char)) sp aq ap fm pr,
  apart sp s = true ->
  (sp = true -> exists tl0, tl = tl0 ++ [Some SP]) ->
  exists n ap' fm',
    scan db n
      (mkState (tl ++ map Some (flat_map escape_char s) ++ [EOF]) (len tl)
         (if sp then 1 else 0) aq ap false fm pr)
    = Return (mkState (tl ++ map Some s ++ [EOF]) (len tl + len s + 1) 0
                aq ap' false fm' pr).
Proof.
  induction s as [|c s IH]; intros tl sp aq ap fm pr Ha Hsp.
  - cbn [flat_map map app].
    pose proof (@flush_space EOF tl [EOF] sp aq ap false fm pr eq_refl Hsp)
      as Hh.
    destruct (@step_plain db EOF
                (mkState (tl ++ [EOF]) (len tl) (if sp then 1 else 0) aq ap
                   false fm pr)
                _ _ _ _ _ _ (getitem_mid tl EOF []) Hh
                eq_refl eq_refl) as [ap' [fm' Hs]].
    exists 1%nat, ap', fm'.
    rewrite (@scan_step db O _ _ Hs) by (fields; apply inside_buffer).
    rewrite scan_done by (fields; lengths).
    same_state.
  - cbn [apart] in Ha. cbn [flat_map].
    set (rest := map Some (flat_map escape_char s) ++ [EOF]).
    destruct (escape_char_cases c) as [[E1 E2]|[[x [E1 [E2 [E3 E4]]]]|[E1 E2]]].
    + subst c. rewrite E2. cbn [N.eqb Pos.eqb] in Ha.
      apply andb_true_iff in Ha. destruct Ha as [Hf Ha].
      destruct sp; [discriminate|].
      destruct (@step_space tl rest SP 0 aq ap fm pr eq_refl)
        as [ap1 [fm1 Hs]].
      destruct (IH (tl ++ [Some SP]) true aq ap1 fm1 pr Ha)
        as [n [ap' [fm' H2]]].
      { intros _. exists tl. reflexivity. }
      exists (S n), ap', fm'.
      pose proof (@scan_step db n _ _ Hs (inside_buffer tl (Some SP) rest))
        as H1.
      by_scan H1. by_scan H2. same_state.
    + apply N.eqb_neq in E4. rewrite E4 in Ha. rewrite E1.
      pose proof (@flush_space (Some BACKSLASH) tl
                    (Some BACKSLASH :: Some x :: rest) sp aq ap false fm pr
                    eq_refl Hsp) as Hh.
      destruct (@step_escape_opens db
                  (mkState (tl ++ Some BACKSLASH :: Some x :: rest) (len tl)
                     (if sp then 1 else 0) aq ap false fm pr)
                  _ _ _ _ _ _
                  (getitem_mid tl (Some BACKSLASH) (Some x :: rest)) Hh)
        as [ap1 [fm1 Hs1]].
      pose proof (@step_code db tl rest x (len tl + 1) aq ap1 fm1 pr E2
                    eq_refl) as Hs2.
      rewrite E3 in Hs2.
      destruct (IH (tl ++ [Some c]) false aq ap1 fm1 pr Ha)
        as [n [ap' [fm' H3]]]; [discriminate|].
      exists (S (S n)), ap', fm'.
      pose proof (@scan_step db (S n) _ _ Hs1
                    (inside_buffer tl (Some BACKSLASH) (Some x :: rest)))
        as H1.
      assert (Hlt : len tl + 1 < len (tl ++ Some BACKSLASH :: Some x :: rest))
        by lengths.
      pose proof (@scan_step db n _ _ Hs2 Hlt) as H2.
      by_scan H1. by_scan H2. by_scan H3. same_state.
    + destruct (passes_tests c E2) as [T1 [T2 T3]].
      assert (Hsp' : N.eqb c SP = false).
      { unfold passes, char_in in E2. cbn [existsb] in E2.
        destruct (N.eqb c 32); [discriminate | reflexivity]. }
      rewrite Hsp' in Ha. rewrite E1.
      pose proof (@flush_space (Some c) tl (Some c :: rest) sp aq ap false
                    fm pr T1 Hsp) as Hh.
      destruct (@step_plain db (Some c)
                  (mkState (tl ++ Some c :: rest) (len tl)
                     (if sp then 1 else 0) aq ap false fm pr)
                  _ _ _ _ _ _
                  (getitem_mid tl (Some c) rest) Hh T2 T3)
        as [ap1 [fm1 Hs]].
      destruct (IH (tl ++ [Some c]) false aq ap1 fm1 pr Ha)
        as [n [ap' [fm' H2]]]; [discriminate|].
      exists (S n), ap', fm'.
      pose proof (@scan_step db n _ _ Hs (inside_buffer tl (Some c) rest))
        as H1.
      by_scan H1. by_scan H2. same_state.
Qed.

End RoundTrip.
